(** * touch.cpp: configuration parser and header renderer

    A shallow embedding of [src/touch/touch.cpp]: the line-oriented parser of
    [touch.conf] ([parse_config_file]), placeholder resolution
    ([convert_option]) and the part of [main] that merges the option lists
    and renders the text written into the new file.

    Conventions.
    - [std::string] is [string]; [size_t] values are integers in
      [0, 2^64) with wrap-around written out ([wrap]); [std::string::npos]
      is [2^64 - 1].
    - [substr] and [erase] return [None] where the C++ functions throw
      [std::out_of_range]; the parser and [main] are written in the option
      monad, and are shown never to throw.
    - The three global containers are the record [Globals]; the locals of
      the parsing loop are the record [Locals].
    - [ERROR_PRINT] / [INFO_PRINT] calls are recorded as a list of [Event]s;
      [DEBUG_PRINT] is compiled out ([#undef DEBUG]). *)

From Stdlib Require Import ZArith Lia Ascii String.
From stdpp Require Import gmap strings list.

Open Scope Z_scope.

(** ** The fragment of [std::string] used by the program *)

Module StdString.

Definition SIZE_MOD : Z := 2 ^ 64.
Definition npos : Z := SIZE_MOD - 1.

(** Arithmetic on [size_t] is modulo [2^64]. *)
Definition wrap (z : Z) : Z := z mod SIZE_MOD.

Definition size (s : string) : Z := Z.of_nat (String.length s).

Definition empty (s : string) : bool :=
  match s with EmptyString => true | String _ _ => false end.

Fixpoint sdrop (n : nat) (s : string) : string :=
  match n, s with
  | O, _ => s
  | S _, EmptyString => EmptyString
  | S n', String _ s' => sdrop n' s'
  end.

Fixpoint stake (n : nat) (s : string) : string :=
  match n, s with
  | O, _ => EmptyString
  | S _, EmptyString => EmptyString
  | S n', String c s' => String c (stake n' s')
  end.

(** [s.substr(pos, count)]: throws when [pos > size()], otherwise the
    characters [pos, pos + min(count, size() - pos))]. *)
Definition substr (s : string) (pos count : Z) : option string :=
  if size s <? pos then None
  else Some (stake (Z.to_nat (Z.min count (size s - pos)))
                   (sdrop (Z.to_nat pos) s)).

(** [s.erase(pos, count)]: throws when [pos > size()], otherwise removes
    [min(count, size() - pos)] characters starting at [pos]. *)
Definition erase (s : string) (pos count : Z) : option string :=
  if size s <? pos then None
  else Some (stake (Z.to_nat pos) s +:+
             sdrop (Z.to_nat (pos + Z.min count (size s - pos))) s).

(** [front()] and [back()]; both are only called on non-empty strings. *)
Definition front (s : string) : option ascii :=
  match s with EmptyString => None | String c _ => Some c end.

Fixpoint back (s : string) : option ascii :=
  match s with
  | EmptyString => None
  | String c EmptyString => Some c
  | String _ s' => back s'
  end.

Fixpoint mem (c : ascii) (chars : string) : bool :=
  match chars with
  | EmptyString => false
  | String d chars' => if Ascii.eqb c d then true else mem c chars'
  end.

(** Index of the first / last character satisfying [p]. *)
Fixpoint first_index (p : ascii -> bool) (s : string) : option nat :=
  match s with
  | EmptyString => None
  | String c s' => if p c then Some O else S <$> first_index p s'
  end.

Fixpoint last_index (p : ascii -> bool) (s : string) : option nat :=
  match s with
  | EmptyString => None
  | String c s' =>
      match last_index p s' with
      | Some i => Some (S i)
      | None => if p c then Some O else None
      end
  end.

(** Index of the first occurrence of [pat] in [s]. *)
Fixpoint first_occurrence (pat s : string) : option nat :=
  if String.prefix pat s then Some O
  else match s with
       | EmptyString => None
       | String _ s' => S <$> first_occurrence pat s'
       end.

(** A search result as a [size_t]: the index, or [npos]. *)
Definition to_size_t (r : option nat) : Z :=
  match r with Some i => Z.of_nat i | None => npos end.

(** [s.find(pat)] *)
Definition find (s pat : string) : Z := to_size_t (first_occurrence pat s).

(** [s.find(c, pos)] *)
Definition find_char (s : string) (c : ascii) (pos : Z) : Z :=
  match first_index (Ascii.eqb c) (sdrop (Z.to_nat pos) s) with
  | Some i => pos + Z.of_nat i
  | None => npos
  end.

(** [s.find_first_not_of(chars)], [s.find_last_not_of(chars)] and
    [s.find_last_of(chars)] *)
Definition find_first_not_of (s chars : string) : Z :=
  to_size_t (first_index (fun c => negb (mem c chars)) s).

Definition find_last_not_of (s chars : string) : Z :=
  to_size_t (last_index (fun c => negb (mem c chars)) s).

Definition find_last_of (s chars : string) : Z :=
  to_size_t (last_index (fun c => mem c chars) s).

(** [s.c_str()] read as a C string: the characters before the first NUL. *)
Fixpoint c_str (s : string) : string :=
  match s with
  | EmptyString => EmptyString
  | String c s' => if Ascii.eqb c "000" then EmptyString else String c (c_str s')
  end.

End StdString.
Import StdString.

(** ** Characters and literals that Rocq strings cannot spell directly *)

Definition TAB : ascii := "009"%char.
Definition DQUOTE : ascii := "034"%char.
Definition SQUOTE : ascii := "039"%char.

(** The C++ literals for a newline, for the blank-and-tab set used when
    trimming, and for the two quote characters. *)
Definition NL : string := String "010" EmptyString.
Definition WS : string := String " " (String TAB EmptyString).
Definition DQ : string := String DQUOTE EmptyString.
Definition SQ : string := String SQUOTE EmptyString.

Definition BACKSLASH : string := String "092" EmptyString.

(** The two-character C++ literal made of a backslash and the letter n. *)
Definition BACKSLASH_N : string := String "092" (String "n" EmptyString).

Definition EXIT_SUCCESS : Z := 0.
Definition EXIT_FAILURE : Z := 1.
Definition CONFIG_PATH : string := "./touch.conf".

(** ** Data model *)

(** [struct option] *)
Record Option := mkOption {
  identifier : string;
  is_prepend : bool
}.

(** The three mutable globals: [variable_map], [type_options_map] and
    [raw_code]. *)
Record Globals := mkGlobals {
  variable_map : gmap string string;
  type_options_map : gmap string (list Option);
  raw_code : list string
}.

(** At program start all three containers are empty. *)
Definition initial_globals : Globals :=
  {| variable_map := ∅; type_options_map := ∅; raw_code := [] |}.

(** The locals of the loop of [parse_config_file]: [current_type],
    [is_prepend] and [is_raw]. *)
Record Locals := mkLocals {
  current_type : string;
  flag_is_prepend : bool;
  flag_is_raw : bool
}.

Definition initial_locals : Locals :=
  {| current_type := ""; flag_is_prepend := false; flag_is_raw := false |}.

(** What the program prints ([ERROR_PRINT] and [INFO_PRINT]), in order. An
    event records which message is printed and the [std::string] or the
    argument handed to the call. The text that reaches the terminal is the
    [c_str] of that string, formatted with [%s]: the characters before its
    first NUL. *)
Inductive Event :=
| ErrConfigOpen (path : string)
| ErrInvalidSet (line : string)
| ErrOptionOutsideType (line : string)
| ErrFileExists (name : string)
| ErrCreate (name : string)
| ErrNoFileName
| ErrOpenForWriting (name : string)
| InfoVersion
| InfoHelp (config_path : string)
| InfoPrompt
| InfoPromptPhrase
| InfoAborting.

(** The comment opener of Standard ML and OCaml: an opening parenthesis, a
    star and a blank. *)
Definition ML_COMMENT : string := String "(" (String "*" (String " " EmptyString)).

(** [comment_str_map] *)
Definition comment_str_table : list (string * string) :=
  [ (".c", "// "); (".cpp", "// "); (".h", "// "); (".hpp", "// ");
    (".py", "# "); (".java", "// "); (".js", "// "); (".ts", "// ");
    (".rb", "# "); (".go", "// "); (".rs", "// "); (".cs", "// ");
    (".php", "// "); (".swift", "// "); (".kt", "// "); (".scala", "// ");
    (".sh", "# "); (".pl", "# "); (".r", "# "); (".lua", "-- ");
    (".sql", "-- "); (".asm", "; "); (".s", "; "); (".vb", "' ");
    (".vba", "' "); (".m", "// "); (".mm", "// "); (".erl", "% ");
    (".ex", "# "); (".exs", "# "); (".hs", "-- "); (".lisp", ";; ");
    (".clj", ";; "); (".scm", ";; "); (".f90", "!"); (".f95", "!");
    (".f03", "!"); (".ada", "-- "); (".pas", "// "); (".dart", "// ");
    (".coffee", "# "); (".groovy", "// "); (".nim", "# "); (".rkt", "; ");
    (".vhd", "-- "); (".vhdl", "-- "); (".pro", "% "); (".sml", ML_COMMENT);
    (".ml", ML_COMMENT); (".bat", "REM "); (".ps1", "# ") ].

Definition comment_str_map : gmap string string := list_to_map comment_str_table.

(** ** [convert_option] *)

(** [today] is the value of [get_current_date()] during the run. *)
Definition convert_option (vm : gmap string string) (today : string)
    (option filename : string) : string :=
  if String.eqb option "<date>" then "DATE: " +:+ today
  else if String.eqb option "<file>" then "FILE: " +:+ filename
  else match vm !! option with
       | Some v => v
       | None => option
       end.

(** ** [parse_config_file] *)

(** The two [erase] calls that trim leading and trailing blanks and tabs. *)
Definition trim (line : string) : option string :=
  line ← erase line 0 (find_first_not_of line WS);
  erase line (wrap (find_last_not_of line WS + 1)) npos.

(** Remove surrounding quotes if present. *)
Definition strip_value_quotes (var_value : string) : option string :=
  if negb (empty var_value)
     && bool_decide (front var_value = Some DQUOTE)
     && bool_decide (back var_value = Some DQUOTE)
  then substr var_value 1 (wrap (size var_value - 2))
  else Some var_value.

Definition PState : Type := Globals * Locals.

(** One iteration of the [while (std::getline(file, line))] loop. *)
Definition parse_line (file_extension : string) (st : PState) (line : string)
    : option (PState * list Event) :=
  let '(g, l) := st in
  line ← trim line;
  if empty line then Some (st, [])
  else if find line "SET " =? 0 then
    let pos := 4 in
    let equal_pos := find_char line "=" pos in
    if equal_pos =? npos then Some (st, [ErrInvalidSet line])
    else
      var_name ← substr line pos (wrap (equal_pos - pos));
      var_name ← trim var_name;
      var_value ← substr line (wrap (equal_pos + 1)) npos;
      var_value ← trim var_value;
      var_value ← strip_value_quotes var_value;
      Some (({| variable_map := <["<" +:+ var_name +:+ ">" := var_value]> (variable_map g);
                type_options_map := type_options_map g;
                raw_code := raw_code g |}, l), [])
  else if find line "<type " =? 0 then
    new_type ← substr line 6 (wrap (size line - 7));
    Some (({| variable_map := variable_map g;
              type_options_map :=
                match type_options_map g !! new_type with
                | Some _ => type_options_map g
                | None => <[new_type := []]> (type_options_map g)
                end;
              raw_code := raw_code g |},
           {| current_type := new_type;
              flag_is_prepend := false;
              flag_is_raw := false |}), [])
  else if find line "<prepend>" =? 0 then
    Some ((g, {| current_type := current_type l;
                 flag_is_prepend := true;
                 flag_is_raw := flag_is_raw l |}), [])
  else if find line "<append>" =? 0 then
    Some ((g, {| current_type := current_type l;
                 flag_is_prepend := false;
                 flag_is_raw := flag_is_raw l |}), [])
  else if find line "<raw>" =? 0 then
    Some ((g, {| current_type := current_type l;
                 flag_is_prepend := flag_is_prepend l;
                 flag_is_raw := true |}), [])
  else
    if empty (current_type l) then Some (st, [ErrOptionOutsideType line])
    else if flag_is_raw l && String.eqb (current_type l) file_extension then
      Some (({| variable_map := variable_map g;
                type_options_map := type_options_map g;
                raw_code := raw_code g ++ [line] |}, l), [])
    else
      Some (({| variable_map := variable_map g;
                type_options_map :=
                  <[current_type l :=
                      default [] (type_options_map g !! current_type l)
                      ++ [{| identifier := line; is_prepend := flag_is_prepend l |}]]>
                    (type_options_map g);
                raw_code := raw_code g |}, l), []).

(** The loop over the lines of the file. *)
Fixpoint parse_lines (file_extension : string) (lines : list string) (st : PState)
    : option (PState * list Event) :=
  match lines with
  | [] => Some (st, [])
  | line :: rest =>
      '(st1, ev1) ← parse_line file_extension st line;
      '(st2, ev2) ← parse_lines file_extension rest st1;
      Some (st2, ev1 ++ ev2)
  end.

(** [file] is [None] when the stream could not be opened, and otherwise the
    lines that [std::getline] yields. *)
Definition parse_config_file (filename : string) (file : option (list string))
    (file_extension : string) (g : Globals) : option (Globals * list Event) :=
  match file with
  | None => Some (g, [ErrConfigOpen filename])
  | Some lines =>
      '(st, ev) ← parse_lines file_extension lines (g, initial_locals);
      Some (st.1, ev)
  end.

(** ** [get_exe_path], [get_config_path] *)

(** [module_path] is what [GetModuleFileName] writes into the buffer. *)
Definition get_exe_path (module_path : string) : option string :=
  let pos := find_last_of module_path (BACKSLASH +:+ "/") in
  if negb (pos =? npos) then substr module_path 0 pos else Some "".

Definition get_config_path (module_path : string) : option string :=
  dir ← get_exe_path module_path;
  Some (dir +:+ BACKSLASH +:+ CONFIG_PATH).

(** ** [confirm_action] *)

(** [response] and [confirmation] are what the two [scanf_s] calls read. *)
Definition confirm_action (response : ascii) (confirmation phrase : string) : bool :=
  if Ascii.eqb response "y" || Ascii.eqb response "Y"
  then String.eqb confirmation phrase
  else false.

(** ** The rendering part of [main] *)

(** The loop that splits the options of the target's type group. *)
Definition split_options (opts : list Option) : list string * list string :=
  fold_left
    (fun (acc : list string * list string) (opt : Option) =>
       if is_prepend opt
       then (acc.1 ++ [identifier opt], acc.2)
       else (acc.1, acc.2 ++ [identifier opt]))
    opts ([], []).

Definition prepend_options (g : Globals) (file_extension : string) : list string :=
  match type_options_map g !! file_extension with
  | Some opts => (split_options opts).1
  | None => []
  end.

Definition append_options (g : Globals) (file_extension : string) : list string :=
  match type_options_map g !! file_extension with
  | Some opts => (split_options opts).2
  | None => []
  end.

Definition default_options (g : Globals) : list string :=
  match type_options_map g !! ".all" with
  | Some opts => fold_left (fun acc opt => acc ++ [identifier opt]) opts []
  | None => []
  end.

(** Merge options in the correct order. *)
Definition all_options (g : Globals) (file_extension : string) : list string :=
  (([] ++ prepend_options g file_extension) ++ default_options g)
  ++ append_options g file_extension.

Definition comment_str (file_extension : string) : string :=
  match comment_str_map !! file_extension with
  | Some c => c
  | None => "// "
  end.

(** The first loop building [file_message]: one commented line per option. *)
Definition options_message (g : Globals) (today file_extension filename : string)
    : string :=
  fold_left
    (fun file_message opt =>
       file_message +:+
       ((comment_str file_extension
         +:+ convert_option (variable_map g) today opt filename) +:+ NL))
    (all_options g file_extension) "".

(** The copy [trimmed] that is compared with the backslash-n token. *)
Definition raw_trimmed (line : string) : option string :=
  if negb (empty line)
     && (bool_decide (front line = Some DQUOTE)
         || bool_decide (front line = Some SQUOTE))
  then substr line 1 (wrap (size line - 2))
  else Some line.

Definition add_raw_line (file_message line : string) : option string :=
  trimmed ← raw_trimmed line;
  if String.eqb trimmed BACKSLASH_N
  then Some (file_message +:+ NL)
  else Some (file_message +:+ (line +:+ NL)).

Fixpoint add_raw_lines (file_message : string) (lines : list string) : option string :=
  match lines with
  | [] => Some file_message
  | line :: rest =>
      file_message ← add_raw_line file_message line;
      add_raw_lines file_message rest
  end.

(** Add raw code. *)
Definition add_raw_code (g : Globals) (file_message : string) : option string :=
  match raw_code g with
  | [] => Some file_message
  | _ :: _ => add_raw_lines (file_message +:+ NL) (raw_code g)
  end.

(** The final value of [file_message]. *)
Definition render (g : Globals) (today file_extension filename : string)
    : option string :=
  add_raw_code g (options_message g today file_extension filename).

(** ** [main] *)

(** Everything [main] reads from its environment. *)
Record World := mkWorld {
  argv : list string;              (* argv[0], argv[1], ... *)
  module_path : string;            (* GetModuleFileName *)
  target_readable : bool;          (* the probing fopen_s(.., r) succeeds *)
  stdin_response : ascii;          (* first scanf_s of confirm_action *)
  stdin_confirmation : string;     (* second scanf_s of confirm_action *)
  create_ok : bool;                (* the first fopen_s(.., w) succeeds *)
  write_ok : bool;                 (* the final fopen_s(.., w) succeeds *)
  config_file : option (list string); (* lines of touch.conf, if it opens *)
  today : string                   (* get_current_date() *)
}.

(** What happened to the target file. *)
Inductive FileEffect :=
| Untouched                        (* never opened for writing *)
| Truncated                        (* created or emptied, nothing written *)
| Written (contents : string).     (* created and filled by fprintf *)

Record Outcome := mkOutcome {
  exit_code : Z;
  target : FileEffect;
  events : list Event
}.

(** The extension is the suffix from the last dot; empty without a dot. *)
Definition extension_of (filename : string) : option string :=
  let dot_pos := find_last_of filename "." in
  if negb (dot_pos =? npos) then substr filename dot_pos npos else Some "".

(** What is printed while probing for an existing target: the error and
    the prompts of [confirm_action]. *)
Definition probe_events (w : World) (name : string) : list Event :=
  if target_readable w
  then [ErrFileExists name; InfoPrompt] ++
       (if Ascii.eqb (stdin_response w) "y" || Ascii.eqb (stdin_response w) "Y"
        then [InfoPromptPhrase] else [])
  else [].

(** [None] stands for an uncaught [std::out_of_range]. *)
Definition main (w : World) : option Outcome :=
  match argv w with
  | _ :: arg1 :: _ =>
      if String.eqb arg1 "--version" then
        Some (mkOutcome EXIT_SUCCESS Untouched [InfoVersion])
      else if String.eqb arg1 "--help" then
        cfg ← get_config_path (module_path w);
        Some (mkOutcome EXIT_SUCCESS Untouched [InfoHelp cfg])
      else
        let filename := arg1 in
        let ev_exists := probe_events w arg1 in
        if target_readable w
           && negb (confirm_action (stdin_response w) (stdin_confirmation w) "overwrite")
        then Some (mkOutcome EXIT_FAILURE Untouched (ev_exists ++ [InfoAborting]))
        else if negb (create_ok w) then
          Some (mkOutcome EXIT_FAILURE Untouched (ev_exists ++ [ErrCreate arg1]))
        else
          file_extension ← extension_of filename;
          config_path ← get_config_path (module_path w);
          '(g, ev_parse) ← parse_config_file config_path (config_file w)
                              file_extension initial_globals;
          file_message ← render g (today w) file_extension filename;
          if negb (write_ok w) then
            Some (mkOutcome EXIT_FAILURE Truncated
                    (ev_exists ++ ev_parse ++ [ErrOpenForWriting arg1]))
          else
            Some (mkOutcome EXIT_SUCCESS (Written (c_str file_message))
                    (ev_exists ++ ev_parse))
  | _ =>
      cfg ← get_config_path (module_path w);
      Some (mkOutcome EXIT_FAILURE Untouched [ErrNoFileName; InfoHelp cfg])
  end.

(** * Vocabulary of the statements

    Notions used to state the properties below; none of them is part of the
    program. *)

Module Vocabulary.

(** The sizes a [size_t] can hold; every [std::string] satisfies this. *)
Definition representable (s : string) : Prop := size s < SIZE_MOD.

Definition not_blank (c : ascii) : bool := negb (mem c WS).

(** Dropping the leading, respectively the trailing, blanks and tabs. *)
Fixpoint ltrim (s : string) : string :=
  match s with
  | EmptyString => EmptyString
  | String c s' => if not_blank c then s else ltrim s'
  end.

Fixpoint rtrim (s : string) : string :=
  match s with
  | EmptyString => EmptyString
  | String c s' =>
      match rtrim s' with
      | EmptyString => if not_blank c then String c EmptyString else EmptyString
      | r => String c r
      end
  end.

(** A string that neither starts nor ends with a blank or a tab. *)
Definition is_trimmed (s : string) : bool :=
  match front s, back s with
  | Some a, Some b => not_blank a && not_blank b
  | _, _ => true
  end.

(** The string without its first and its last character. *)
Fixpoint remove_last (s : string) : string :=
  match s with
  | EmptyString => EmptyString
  | String c EmptyString => EmptyString
  | String c s' => String c (remove_last s')
  end.

Definition without_ends (s : string) : string :=
  match s with
  | EmptyString => EmptyString
  | String _ s' => remove_last s'
  end.

(** The lines that one of the five prefix tests recognises. *)
Definition is_directive (t : string) : bool :=
  String.prefix "SET " t || String.prefix "<type " t
  || String.prefix "<prepend>" t || String.prefix "<append>" t
  || String.prefix "<raw>" t.

(** An option line: what is left of the line after trimming is not empty
    and is not a directive. *)
Definition option_line (line t : string) : Prop :=
  trim line = Some t /\ t <> "" /\ is_directive t = false.

(** [unquoted value v]: [v] is [value] with one pair of surrounding double
    quotes removed; or [value] itself when it does not both start and end
    with a double quote; or the empty string when [value] is a double quote
    alone, which is its own first and last character. Every value falls
    under exactly one of the three cases. *)
Inductive unquoted : string -> string -> Prop :=
| unquoted_pair (inner : string) : unquoted (DQ +:+ inner +:+ DQ) inner
| unquoted_plain (v : string) :
    front v <> Some DQUOTE \/ back v <> Some DQUOTE -> unquoted v v
| unquoted_lone : unquoted DQ "".

(** Everything one iteration of the parsing loop can do to the globals and
    to the locals. *)
Inductive effect (ext : string) (g : Globals) (l : Locals)
    : Globals -> Locals -> Prop :=
| effect_skip : effect ext g l g l
| effect_set (key value : string) :
    effect ext g l
      {| variable_map := <[key := value]> (variable_map g);
         type_options_map := type_options_map g;
         raw_code := raw_code g |} l
| effect_type (X : string) :
    effect ext g l
      {| variable_map := variable_map g;
         type_options_map :=
           match type_options_map g !! X with
           | Some _ => type_options_map g
           | None => <[X := []]> (type_options_map g)
           end;
         raw_code := raw_code g |}
      {| current_type := X; flag_is_prepend := false; flag_is_raw := false |}
| effect_prepend (b : bool) :
    effect ext g l g
      {| current_type := current_type l; flag_is_prepend := b;
         flag_is_raw := flag_is_raw l |}
| effect_raw_mode :
    effect ext g l g
      {| current_type := current_type l; flag_is_prepend := flag_is_prepend l;
         flag_is_raw := true |}
| effect_raw_line (t : string) :
    current_type l <> "" -> flag_is_raw l = true -> current_type l = ext ->
    effect ext g l
      {| variable_map := variable_map g;
         type_options_map := type_options_map g;
         raw_code := raw_code g ++ [t] |} l
| effect_option (t : string) :
    current_type l <> "" -> flag_is_raw l = false \/ current_type l <> ext ->
    effect ext g l
      {| variable_map := variable_map g;
         type_options_map :=
           <[current_type l :=
               default [] (type_options_map g !! current_type l)
               ++ [{| identifier := t; is_prepend := flag_is_prepend l |}]]>
             (type_options_map g);
         raw_code := raw_code g |} l.

(** The line does not write the variable [key]. *)
Definition leaves_variable (ext key line : string) : Prop :=
  forall (st st' : PState) (ev : list Event),
    parse_line ext st line = Some (st', ev) ->
    variable_map st'.1 !! key = variable_map st.1 !! key.

(** [piece] occurs in [text]. *)
Definition contains (text piece : string) : Prop :=
  exists before after, text = before +:+ piece +:+ after.

(** The option lines of the message, one after the other. *)
Fixpoint option_lines (comment : string) (vm : gmap string string)
    (today filename : string) (opts : list string) : string :=
  match opts with
  | [] => ""
  | opt :: rest =>
      ((comment +:+ convert_option vm today opt filename) +:+ NL)
      +:+ option_lines comment vm today filename rest
  end.

(** The configuration of the scenario of section 8 of the specification. *)
Definition scenario_config : list string :=
  [ "<type .py>"; "<prepend>"; "<date>"; "<type .py>"; "<append>";
    "SET author = " +:+ DQ +:+ "Alice" +:+ DQ; "author: <author>" ].

End Vocabulary.
Import Vocabulary.

(** * The raw block as the specification words it

    Section 4.3, step 6 of the specification, transcribed; compared with
    [add_raw_code] below. *)

Module Spec.

Definition leading_quote (line : string) : bool :=
  match line with
  | String c _ => Ascii.eqb c DQUOTE || Ascii.eqb c SQUOTE
  | EmptyString => false
  end.

(** The copy with the leading quote and the final character stripped. *)
Definition stripped_copy (line : string) : string :=
  if leading_quote line then without_ends line else line.

(** A blank line for the backslash-n token, else the original line. *)
Definition raw_line (line : string) : string :=
  if String.eqb (stripped_copy line) BACKSLASH_N then NL else line +:+ NL.

Fixpoint raw_lines (lines : list string) : string :=
  match lines with
  | [] => ""
  | line :: rest => raw_line line +:+ raw_lines rest
  end.

(** One blank separator line, then the raw lines; nothing without them. *)
Definition raw_block (lines : list string) : string :=
  match lines with
  | [] => ""
  | _ :: _ => NL +:+ raw_lines lines
  end.

End Spec.

(** * Vocabulary of the further properties *)

Module Shapes.

(** Only blanks and tabs. *)
Fixpoint all_blank (s : string) : bool :=
  match s with
  | EmptyString => true
  | String c s' => mem c WS && all_blank s'
  end.

(** No character of [s] is one of [chars]. *)
Fixpoint none_of (chars s : string) : bool :=
  match s with
  | EmptyString => true
  | String c s' => negb (mem c chars) && none_of chars s'
  end.

(** The two path separators searched by [get_exe_path]. *)
Definition SEPARATORS : string := BACKSLASH +:+ "/".

(** What the parser may store as an option or as a raw line. *)
Definition storable (t : string) : Prop := t <> "" /\ is_directive t = false.

(** [old] is an initial segment of [new]. *)
Definition grows {A : Type} (old new : list A) : Prop :=
  exists added, new = old ++ added.

(** The options of the group [k]; none when the group does not exist. *)
Definition group (g : Globals) (k : string) : list Option :=
  default [] (type_options_map g !! k).

(** No line of [lines] starts, once trimmed, with [<type ]. *)
Definition no_type_directive (lines : list string) : Prop :=
  Forall (fun line => exists t, trim line = Some t
                                /\ String.prefix "<type " t = false) lines.

(** The answers that [confirm_action] accepts: [y] or [Y] at the first
    prompt, then the phrase [overwrite], letter for letter. *)
Definition confirmed (w : World) : Prop :=
  (stdin_response w = "y"%char \/ stdin_response w = "Y"%char)
  /\ stdin_confirmation w = "overwrite".

(** The run gets as far as creating (or emptying) the target file: a file
    name is given, it is not one of the two switches, the probing [fopen_s]
    for reading fails (no such file, or a file that cannot be read) or else
    the user gave the two accepted answers, and the creating [fopen_s]
    succeeds. *)
Definition creates_target (w : World) : Prop :=
  exists prog arg1 rest,
    argv w = prog :: arg1 :: rest
    /\ arg1 <> "--version" /\ arg1 <> "--help"
    /\ (target_readable w = false \/ confirmed w)
    /\ create_ok w = true.

(** The NUL character. *)
Definition NUL : ascii := "000"%char.

(** [printed] is what [fprintf] with [%s] writes of [text]: all of it when
    it holds no NUL, and otherwise the part before its first NUL. *)
Definition printed_of (text printed : string) : Prop :=
  mem NUL printed = false
  /\ (text = printed \/ exists rest, text = printed +:+ String NUL rest).

End Shapes.
Import Shapes.

(** * Facts about the string operations *)

Module StringFacts.

(** stdpp keeps [String.append] folded under [simpl]; these two equations
    unfold it one constructor at a time. *)
Lemma sapp_empty (s : string) : "" +:+ s = s.
Proof. reflexivity. Qed.

Lemma sapp_String (c : ascii) (a b : string) :
  String c a +:+ b = String c (a +:+ b).
Proof. reflexivity. Qed.

Lemma sapp_nil_r (s : string) : s +:+ "" = s.
Proof.
  induction s as [|c s IH]; [reflexivity |]. now rewrite sapp_String, IH.
Qed.

Lemma sapp_assoc (a b c : string) : (a +:+ b) +:+ c = a +:+ (b +:+ c).
Proof.
  induction a as [|x a IH]; [reflexivity |]. now rewrite !sapp_String, IH.
Qed.

Lemma slength_app (a b : string) :
  String.length (a +:+ b) = (String.length a + String.length b)%nat.
Proof.
  induction a as [|x a IH]; [reflexivity |]. rewrite sapp_String. simpl.
  now rewrite IH.
Qed.

Lemma size_app (a b : string) : size (a +:+ b) = size a + size b.
Proof. unfold size. rewrite slength_app. lia. Qed.

Lemma size_nonneg (s : string) : 0 <= size s.
Proof. unfold size. lia. Qed.

Lemma size_String (c : ascii) (s : string) : size (String c s) = 1 + size s.
Proof. unfold size. simpl String.length. lia. Qed.

Lemma empty_true (s : string) : empty s = true <-> s = "".
Proof. destruct s; simpl; split; congruence. Qed.

Lemma empty_false (s : string) : empty s = false <-> s <> "".
Proof. destruct s; simpl; split; congruence. Qed.

Lemma sdrop_0 (s : string) : sdrop 0 s = s.
Proof. now destruct s. Qed.

Lemma stake_0 (s : string) : stake 0 s = "".
Proof. now destruct s. Qed.

Lemma sdrop_all (n : nat) (s : string) :
  (String.length s <= n)%nat -> sdrop n s = "".
Proof.
  revert n. induction s as [|c s IH]; intros [|n] H; simpl in *;
    try reflexivity; try lia.
  apply IH. lia.
Qed.

Lemma stake_all (n : nat) (s : string) :
  (String.length s <= n)%nat -> stake n s = s.
Proof.
  revert n. induction s as [|c s IH]; intros [|n] H; simpl in *;
    try reflexivity; try lia.
  f_equal. apply IH. lia.
Qed.

Lemma sdrop_app (a b : string) : sdrop (String.length a) (a +:+ b) = b.
Proof.
  induction a as [|x a IH]; [apply sdrop_0 |]. rewrite sapp_String. exact IH.
Qed.

Lemma stake_app (a b : string) : stake (String.length a) (a +:+ b) = a.
Proof.
  induction a as [|x a IH]; [apply stake_0 |]. rewrite sapp_String. simpl.
  now rewrite IH.
Qed.

Lemma length_sdrop (n : nat) (s : string) :
  String.length (sdrop n s) = (String.length s - n)%nat.
Proof.
  revert s. induction n as [|n IH]; intros [|c s]; simpl; try reflexivity.
  apply IH.
Qed.

Lemma prefix_app (p s : string) : String.prefix p (p +:+ s) = true.
Proof.
  induction p as [|c p IH]; [now destruct s |]. rewrite sapp_String. simpl.
  destruct (ascii_dec c c); [exact IH | congruence].
Qed.

Lemma prefix_inv (p s : string) :
  String.prefix p s = true -> exists r, s = p +:+ r.
Proof.
  revert s. induction p as [|c p IH]; intros s H.
  - exists s. reflexivity.
  - destruct s as [|d s]; simpl in H; [discriminate |].
    destruct (ascii_dec c d) as [->|]; [|discriminate].
    destruct (IH _ H) as [r ->]. exists r. reflexivity.
Qed.

(** [s.find(pat) == 0] says that [pat] is a prefix of [s]. *)
Lemma find_eq_0 (s pat : string) : (find s pat =? 0) = String.prefix pat s.
Proof.
  unfold find. destruct s as [|c s].
  - unfold first_occurrence. destruct (String.prefix pat ""); reflexivity.
  - change (first_occurrence pat (String c s))
      with (if String.prefix pat (String c s) then Some O
            else S <$> first_occurrence pat s).
    destruct (String.prefix pat (String c s)); [reflexivity |].
    destruct (first_occurrence pat s); reflexivity.
Qed.

Lemma back_app_char (a : string) (c : ascii) : back (a +:+ String c "") = Some c.
Proof.
  induction a as [|x a IH]; [reflexivity |]. rewrite sapp_String. simpl.
  rewrite IH. destruct (a +:+ String c "") eqn:E; [|reflexivity].
  destruct a; discriminate.
Qed.

Lemma back_String (c : ascii) (s : string) :
  s <> "" -> back (String c s) = back s.
Proof. destruct s; [congruence | reflexivity]. Qed.

Lemma mem_app (c : ascii) (a b : string) : mem c (a +:+ b) = mem c a || mem c b.
Proof.
  induction a as [|x a IH]; [reflexivity |]. rewrite sapp_String. simpl.
  destruct (Ascii.eqb c x); [reflexivity | exact IH].
Qed.

Lemma wrap_small (z : Z) : 0 <= z < SIZE_MOD -> wrap z = z.
Proof. intros H. unfold wrap. apply Z.mod_small. exact H. Qed.

Lemma wrap_le (z : Z) : 0 <= z -> wrap z <= z.
Proof. intros H. unfold wrap. apply Z.mod_le; [exact H | reflexivity]. Qed.

Lemma wrap_npos_succ : wrap (npos + 1) = 0.
Proof. reflexivity. Qed.

End StringFacts.
Import StringFacts.

(** * What the trimming code computes *)

Module TrimFacts.

Lemma first_index_lt (p : ascii -> bool) (s : string) (i : nat) :
  first_index p s = Some i -> (i < String.length s)%nat.
Proof.
  revert i. induction s as [|c s IH]; intros i H; simpl in H; [discriminate |].
  destruct (p c).
  - injection H as <-. simpl. lia.
  - destruct (first_index p s) as [j|]; [|discriminate].
    injection H as <-. specialize (IH j eq_refl). simpl. lia.
Qed.

Lemma last_index_lt (p : ascii -> bool) (s : string) (i : nat) :
  last_index p s = Some i -> (i < String.length s)%nat.
Proof.
  revert i. induction s as [|c s IH]; intros i H; simpl in H; [discriminate |].
  destruct (last_index p s) as [j|].
  - injection H as <-. specialize (IH j eq_refl). simpl. lia.
  - destruct (p c); [|discriminate]. injection H as <-. simpl. lia.
Qed.

Lemma first_index_ltrim (s : string) :
  match first_index not_blank s with
  | Some i => sdrop i s = ltrim s
  | None => ltrim s = ""
  end.
Proof.
  induction s as [|c s IH]; simpl; [reflexivity |].
  destruct (not_blank c); [reflexivity |].
  destruct (first_index not_blank s); simpl; exact IH.
Qed.

Lemma last_index_rtrim (s : string) :
  match last_index not_blank s with
  | Some j => stake (S j) s = rtrim s /\ rtrim s <> ""
  | None => rtrim s = ""
  end.
Proof.
  induction s as [|c s IH]; simpl; [reflexivity |].
  destruct (last_index not_blank s) as [j|].
  - destruct IH as [IH Hne]. destruct (rtrim s) eqn:E; [congruence |].
    split; [|discriminate]. f_equal. exact IH.
  - rewrite IH. destruct (not_blank c); [|reflexivity].
    split; [|discriminate]. now rewrite stake_0.
Qed.

Lemma length_ltrim (s : string) : (String.length (ltrim s) <= String.length s)%nat.
Proof.
  induction s as [|c s IH]; simpl; [lia |].
  destruct (not_blank c); simpl; lia.
Qed.

Lemma representable_ltrim (s : string) : representable s -> representable (ltrim s).
Proof.
  unfold representable, size. pose proof (length_ltrim s). lia.
Qed.

(** The first [erase] of the trimming code. *)
Lemma erase_front (s : string) :
  representable s -> erase s 0 (find_first_not_of s WS) = Some (ltrim s).
Proof.
  intros Hs. unfold erase, find_first_not_of.
  pose proof (size_nonneg s) as H0.
  destruct (Z.ltb_spec (size s) 0) as [|_]; [lia |].
  rewrite Z.sub_0_r, Z.add_0_l. change (Z.to_nat 0) with O.
  rewrite stake_0, sapp_empty. f_equal.
  change (fun c => negb (mem c WS)) with not_blank.
  pose proof (first_index_ltrim s) as HL.
  destruct (first_index not_blank s) as [i|] eqn:E; simpl to_size_t.
  - apply first_index_lt in E. rewrite <- HL. f_equal. unfold size. lia.
  - rewrite HL. apply sdrop_all. unfold representable, npos, size in *. lia.
Qed.

(** The second [erase] of the trimming code. *)
Lemma erase_back (s : string) :
  representable s ->
  erase s (wrap (find_last_not_of s WS + 1)) npos = Some (rtrim s).
Proof.
  intros Hs. unfold erase, find_last_not_of.
  change (fun c => negb (mem c WS)) with not_blank.
  pose proof (last_index_rtrim s) as HL.
  pose proof (size_nonneg s) as H0.
  destruct (last_index not_blank s) as [j|] eqn:E; simpl to_size_t.
  - apply last_index_lt in E. destruct HL as [HL _].
    assert (Hj : Z.of_nat j + 1 <= size s) by (unfold size; lia).
    rewrite wrap_small by (unfold representable in Hs; lia).
    destruct (Z.ltb_spec (size s) (Z.of_nat j + 1)) as [|_]; [lia |].
    f_equal. rewrite <- HL.
    replace (Z.to_nat (Z.of_nat j + 1)) with (S j) by lia.
    rewrite sdrop_all; [apply sapp_nil_r |].
    unfold representable, npos, size in *. lia.
  - rewrite wrap_npos_succ.
    destruct (Z.ltb_spec (size s) 0) as [|_]; [lia |].
    change (Z.to_nat 0) with O. rewrite stake_0, sapp_empty, HL. f_equal.
    apply sdrop_all. unfold representable, npos, size in *. lia.
Qed.

Lemma trim_spec (s : string) :
  representable s -> trim s = Some (rtrim (ltrim s)).
Proof.
  intros Hs. unfold trim. rewrite erase_front by exact Hs. simpl.
  apply erase_back, representable_ltrim, Hs.
Qed.

(** Trimming never throws, whatever the line. *)
Lemma erase_front_total (s : string) (k : Z) : is_Some (erase s 0 k).
Proof.
  unfold erase. pose proof (size_nonneg s).
  destruct (Z.ltb_spec (size s) 0) as [|_]; [lia | eexists; reflexivity].
Qed.

Lemma erase_back_total (s : string) :
  is_Some (erase s (wrap (find_last_not_of s WS + 1)) npos).
Proof.
  unfold erase, find_last_not_of.
  pose proof (size_nonneg s) as H0.
  set (r := last_index _ s).
  assert (H : wrap (to_size_t r + 1) <= size s).
  { destruct r as [j|] eqn:E; simpl to_size_t.
    - apply last_index_lt in E.
      etransitivity; [apply wrap_le; lia | unfold size; lia].
    - rewrite wrap_npos_succ. exact H0. }
  destruct (Z.ltb_spec (size s) (wrap (to_size_t r + 1)));
    [lia | eexists; reflexivity].
Qed.

Lemma trim_total (s : string) : is_Some (trim s).
Proof.
  unfold trim. destruct (erase_front_total s (find_first_not_of s WS)) as [t ->].
  simpl. apply erase_back_total.
Qed.

Lemma ltrim_id (s : string) :
  match front s with Some a => not_blank a = true | None => True end ->
  ltrim s = s.
Proof. destruct s as [|c s]; simpl; [reflexivity |]. now intros ->. Qed.

Lemma rtrim_id (s : string) :
  match back s with Some b => not_blank b = true | None => True end ->
  rtrim s = s.
Proof.
  induction s as [|c s IH]; [reflexivity |].
  destruct s as [|d s].
  - simpl. now intros ->.
  - intros H. rewrite back_String in H by discriminate.
    specialize (IH H). change (rtrim (String c (String d s)))
      with (match rtrim (String d s) with
            | EmptyString => if not_blank c then String c EmptyString else EmptyString
            | r => String c r
            end).
    rewrite IH. reflexivity.
Qed.

Lemma back_None (c : ascii) (s : string) : back (String c s) <> None.
Proof.
  revert c. induction s as [|d s IH]; intros c; [discriminate |].
  rewrite back_String by discriminate. apply IH.
Qed.

Lemma is_trimmed_inv (s : string) :
  is_trimmed s = true ->
  s = "" \/ (s <> "" /\ ltrim s = s /\ rtrim s = s).
Proof.
  intros H. destruct s as [|c s]; [now left | right].
  split; [discriminate |]. unfold is_trimmed in H. simpl front in H.
  destruct (back (String c s)) as [b|] eqn:Eb;
    [|now apply back_None in Eb].
  apply andb_true_iff in H as [Hc Hb]. split.
  - simpl. now rewrite Hc.
  - apply rtrim_id. now rewrite Eb.
Qed.

Lemma is_trimmed_back (s : string) :
  is_trimmed s = true -> s <> "" ->
  exists b, back s = Some b /\ not_blank b = true.
Proof.
  intros H Hne. destruct s as [|c s]; [congruence |].
  unfold is_trimmed in H. simpl front in H.
  destruct (back (String c s)) as [b|] eqn:Eb;
    [|now apply back_None in Eb].
  apply andb_true_iff in H as [_ Hb]. now exists b.
Qed.

(** A trimmed line goes through the trimming code unchanged. *)
Lemma trim_id (s : string) :
  representable s -> is_trimmed s = true -> trim s = Some s.
Proof.
  intros Hs Ht. rewrite trim_spec by exact Hs.
  destruct (is_trimmed_inv s Ht) as [->|(_ & Hl & Hr)]; [reflexivity |].
  now rewrite Hl, Hr.
Qed.

(** Blanks in front of something non-blank survive right-trimming. *)
Lemma rtrim_app (a b : string) : rtrim b <> "" -> rtrim (a +:+ b) = a +:+ rtrim b.
Proof.
  intros Hb. induction a as [|c a IH]; [reflexivity |].
  rewrite !sapp_String. simpl. rewrite IH.
  destruct (a +:+ rtrim b) eqn:E; [|reflexivity].
  destruct a; [rewrite sapp_empty in E; congruence | discriminate].
Qed.

Lemma rtrim_app_blank (a b : string) : rtrim b = "" -> rtrim (a +:+ b) = rtrim a.
Proof.
  intros Hb. induction a as [|x a IH]; [now rewrite sapp_empty |].
  rewrite sapp_String. simpl. now rewrite IH.
Qed.

Lemma ltrim_blank (c : ascii) (s : string) :
  not_blank c = false -> ltrim (String c s) = ltrim s.
Proof. simpl. now intros ->. Qed.

End TrimFacts.
Import TrimFacts.

(** * The parser never throws *)

Module Totality.

Lemma substr_total (s : string) (pos count : Z) :
  pos <= size s -> is_Some (substr s pos count).
Proof.
  intros H. unfold substr.
  destruct (Z.ltb_spec (size s) pos); [lia | eexists; reflexivity].
Qed.

Lemma prefix_size (p s : string) : String.prefix p s = true -> size p <= size s.
Proof.
  intros H. apply prefix_inv in H as [r ->]. rewrite size_app.
  pose proof (size_nonneg r). lia.
Qed.

(** A successful [find(c, pos)] returns a position inside the string. *)
Lemma find_char_range (s : string) (c : ascii) (pos : Z) :
  0 <= pos -> find_char s c pos = npos \/ pos <= find_char s c pos < size s.
Proof.
  intros Hpos. unfold find_char.
  destruct (first_index _ _) as [i|] eqn:E; [right | now left].
  apply first_index_lt in E. rewrite length_sdrop in E. unfold size. lia.
Qed.

Lemma strip_value_quotes_total (v : string) : is_Some (strip_value_quotes v).
Proof.
  unfold strip_value_quotes. destruct v as [|c v]; [eexists; reflexivity |].
  destruct (_ && _); [|eexists; reflexivity].
  apply substr_total. rewrite size_String. pose proof (size_nonneg v). lia.
Qed.

Lemma parse_line_total (ext : string) (st : PState) (line : string) :
  is_Some (parse_line ext st line).
Proof.
  destruct st as [g l]. unfold parse_line.
  destruct (trim_total line) as [t ->]. simpl.
  destruct (empty t); [eexists; reflexivity |].
  rewrite !find_eq_0.
  destruct (String.prefix "SET " t) eqn:HSET.
  { pose proof (prefix_size _ _ HSET) as Hsz. change (size "SET ") with 4 in Hsz.
    destruct (find_char_range t "=" 4 ltac:(lia)) as [->|Hr];
      [eexists; reflexivity |].
    destruct (Z.eqb_spec (find_char t "=" 4) npos); [eexists; reflexivity |].
    destruct (substr_total t 4 (wrap (find_char t "=" 4 - 4)) Hsz) as [a ->].
    simpl. destruct (trim_total a) as [a' ->]. simpl.
    assert (Hp : wrap (find_char t "=" 4 + 1) <= size t)
      by (etransitivity; [apply wrap_le |]; lia).
    destruct (substr_total t _ npos Hp) as [b ->]. simpl.
    destruct (trim_total b) as [b' ->]. simpl.
    destruct (strip_value_quotes_total b') as [v ->]. simpl.
    eexists; reflexivity. }
  destruct (String.prefix "<type " t) eqn:HTYPE.
  { pose proof (prefix_size _ _ HTYPE) as Hsz. change (size "<type ") with 6 in Hsz.
    destruct (substr_total t 6 (wrap (size t - 7)) Hsz) as [x ->]. simpl.
    eexists; reflexivity. }
  repeat (match goal with |- context [if ?b then _ else _] => destruct b end;
          try (eexists; reflexivity)).
Qed.

Lemma parse_lines_total (ext : string) (lines : list string) (st : PState) :
  is_Some (parse_lines ext lines st).
Proof.
  revert st. induction lines as [|line rest IH]; intros st; simpl.
  - eexists; reflexivity.
  - destruct (parse_line_total ext st line) as [[st1 ev1] ->]. simpl.
    destruct (IH st1) as [[st2 ev2] ->]. simpl. eexists; reflexivity.
Qed.

Lemma parse_config_file_total (path : string) (file : option (list string))
    (ext : string) (g : Globals) :
  is_Some (parse_config_file path file ext g).
Proof.
  destruct file as [lines|]; simpl; [|eexists; reflexivity].
  destruct (parse_lines_total ext lines (g, initial_locals)) as [[st ev] ->].
  simpl. eexists; reflexivity.
Qed.

Lemma raw_trimmed_total (line : string) : is_Some (raw_trimmed line).
Proof.
  unfold raw_trimmed. destruct line as [|c s]; [eexists; reflexivity |].
  destruct (_ && _); [|eexists; reflexivity].
  apply substr_total. rewrite size_String. pose proof (size_nonneg s). lia.
Qed.

(** Raw lines are only ever appended to the message. *)
Lemma add_raw_lines_total (lines : list string) (msg : string) :
  exists tail, add_raw_lines msg lines = Some (msg +:+ tail).
Proof.
  revert msg. induction lines as [|line rest IH]; intros msg; simpl.
  - exists "". now rewrite sapp_nil_r.
  - unfold add_raw_line. destruct (raw_trimmed_total line) as [t ->]. simpl.
    destruct (String.eqb t BACKSLASH_N); simpl.
    + destruct (IH (msg +:+ NL)) as [tail ->]. exists (NL +:+ tail).
      now rewrite sapp_assoc.
    + destruct (IH (msg +:+ (line +:+ NL))) as [tail ->].
      exists ((line +:+ NL) +:+ tail). now rewrite sapp_assoc.
Qed.

Lemma add_raw_code_total (g : Globals) (msg : string) :
  exists tail, add_raw_code g msg = Some (msg +:+ tail).
Proof.
  unfold add_raw_code. destruct (raw_code g) as [|line rest] eqn:E.
  - exists "". now rewrite sapp_nil_r.
  - destruct (add_raw_lines_total (line :: rest) (msg +:+ NL)) as [tail ->].
    exists (NL +:+ tail). now rewrite sapp_assoc.
Qed.

Lemma render_total (g : Globals) (today ext filename : string) :
  is_Some (render g today ext filename).
Proof.
  unfold render.
  destruct (add_raw_code_total g (options_message g today ext filename))
    as [tail ->]. eexists; reflexivity.
Qed.

Lemma find_last_of_substr_total (s chars : string) (count : Z) :
  (find_last_of s chars =? npos) = false ->
  is_Some (substr s (find_last_of s chars) count).
Proof.
  unfold find_last_of. destruct (last_index _ s) as [i|] eqn:E; simpl.
  - intros _. apply substr_total. apply last_index_lt in E. unfold size. lia.
  - discriminate.
Qed.

Lemma extension_of_total (filename : string) : is_Some (extension_of filename).
Proof.
  unfold extension_of.
  destruct (find_last_of filename "." =? npos) eqn:E; simpl;
    [eexists; reflexivity | now apply find_last_of_substr_total].
Qed.

Lemma get_config_path_total (module_path : string) :
  is_Some (get_config_path module_path).
Proof.
  unfold get_config_path, get_exe_path.
  destruct (find_last_of module_path _ =? npos) eqn:E; simpl;
    [eexists; reflexivity |].
  destruct (substr_total module_path 0
              (find_last_of module_path (BACKSLASH +:+ "/"))
              (size_nonneg module_path)) as [d ->].
  eexists; reflexivity.
Qed.

(** [main] always returns normally: no exception escapes. *)
Lemma main_total (w : World) : is_Some (main w).
Proof.
  unfold main.
  destruct (get_config_path_total (module_path w)) as [cfg Hcfg].
  destruct (argv w) as [|prog [|arg1 rest]];
    try (rewrite Hcfg; eexists; reflexivity).
  destruct (String.eqb arg1 "--version"); [eexists; reflexivity |].
  destruct (String.eqb arg1 "--help"); [rewrite Hcfg; eexists; reflexivity |].
  destruct (_ && _); [eexists; reflexivity |].
  destruct (negb (create_ok w)); [eexists; reflexivity |].
  destruct (extension_of_total arg1) as [ext ->]. rewrite Hcfg. simpl.
  destruct (parse_config_file_total cfg (config_file w) ext initial_globals)
    as [[g ev] ->]. simpl.
  destruct (render_total g (today w) ext arg1) as [msg ->]. simpl.
  destruct (negb (write_ok w)); eexists; reflexivity.
Qed.

End Totality.
Import Totality.

(** * What [substr] computes on the shapes the program meets *)

Module SubstrFacts.

(** The middle of a three-part string. *)
Lemma substr_mid (a b c : string) :
  representable (a +:+ b +:+ c) ->
  substr (a +:+ b +:+ c) (size a) (wrap (size b)) = Some b.
Proof.
  intros Hr. unfold representable in Hr. rewrite !size_app in Hr.
  pose proof (size_nonneg a). pose proof (size_nonneg b).
  pose proof (size_nonneg c).
  rewrite wrap_small by lia. unfold substr. rewrite !size_app.
  destruct (Z.ltb_spec (size a + (size b + size c)) (size a)); [lia |].
  f_equal. replace (Z.to_nat (size a)) with (String.length a)
    by (unfold size; lia).
  rewrite sdrop_app.
  replace (Z.to_nat _) with (String.length b) by (unfold size in *; lia).
  apply stake_app.
Qed.

(** The rest of a string from a position on: [s.substr(pos)]. *)
Lemma substr_rest (a b : string) :
  representable (a +:+ b) ->
  substr (a +:+ b) (wrap (size a)) npos = Some b.
Proof.
  intros Hr. unfold representable in Hr. rewrite size_app in Hr.
  pose proof (size_nonneg a). pose proof (size_nonneg b).
  rewrite wrap_small by lia. unfold substr. rewrite size_app.
  destruct (Z.ltb_spec (size a + size b) (size a)); [lia |].
  f_equal. replace (Z.to_nat (size a)) with (String.length a)
    by (unfold size; lia).
  rewrite sdrop_app. apply stake_all. unfold npos, size in *. lia.
Qed.

Lemma stake_remove_last (s : string) :
  stake (String.length s - 1) s = remove_last s.
Proof.
  induction s as [|c s IH]; [reflexivity |].
  destruct s as [|d s]; [reflexivity |].
  change (remove_last (String c (String d s)))
    with (String c (remove_last (String d s))).
  rewrite <- IH. simpl. now rewrite Nat.sub_0_r.
Qed.

Lemma remove_last_app_char (s : string) (c : ascii) :
  remove_last (s +:+ String c "") = s.
Proof.
  induction s as [|d s IH]; [reflexivity |].
  rewrite sapp_String. simpl. rewrite IH.
  destruct (s +:+ String c "") eqn:E; [|reflexivity].
  destruct s; discriminate.
Qed.

(** The quote-stripping call [s.substr(1, s.size() - 2)] on a non-empty
    string: for a one-character string the count wraps to [npos] and the
    result is empty. *)
Lemma substr_strip (s : string) :
  representable s -> s <> "" ->
  substr s 1 (wrap (size s - 2)) = Some (without_ends s).
Proof.
  intros Hr Hne. destruct s as [|c s]; [congruence |].
  unfold representable in Hr. rewrite size_String in *.
  pose proof (size_nonneg s) as H0. unfold substr. rewrite size_String.
  destruct (Z.ltb_spec (1 + size s) 1); [lia |]. f_equal.
  change (sdrop (Z.to_nat 1) (String c s)) with s. simpl without_ends.
  destruct s as [|d s]; [now rewrite stake_0 |].
  pose proof (size_nonneg s) as H1. rewrite size_String in *.
  rewrite wrap_small by lia.
  rewrite <- stake_remove_last. f_equal. unfold size. simpl String.length. lia.
Qed.

End SubstrFacts.
Import SubstrFacts.

(** * One line of the configuration file *)

Module LineFacts.

(** The last branch of the loop body. *)
Lemma parse_line_option_line (ext : string) (g : Globals) (l : Locals)
    (line t : string) :
  option_line line t ->
  parse_line ext (g, l) line =
    if empty (current_type l) then Some ((g, l), [ErrOptionOutsideType t])
    else if flag_is_raw l && String.eqb (current_type l) ext then
      Some (({| variable_map := variable_map g;
                type_options_map := type_options_map g;
                raw_code := raw_code g ++ [t] |}, l), [])
    else
      Some (({| variable_map := variable_map g;
                type_options_map :=
                  <[current_type l :=
                      default [] (type_options_map g !! current_type l)
                      ++ [{| identifier := t; is_prepend := flag_is_prepend l |}]]>
                    (type_options_map g);
                raw_code := raw_code g |}, l), []).
Proof.
  intros (Ht & Hne & Hd). unfold parse_line. rewrite Ht. simpl.
  apply empty_false in Hne. rewrite Hne, !find_eq_0.
  unfold is_directive in Hd. rewrite !orb_false_iff in Hd.
  destruct Hd as ((((-> & ->) & ->) & ->) & ->). reflexivity.
Qed.

Lemma representable_app_r (a b : string) : representable (a +:+ b) -> representable b.
Proof.
  unfold representable. rewrite size_app. pose proof (size_nonneg a). lia.
Qed.

(** The [<type X>] branch. *)
Lemma parse_line_type (ext : string) (g : Globals) (l : Locals) (X : string) :
  representable ("<type " +:+ X +:+ ">") ->
  parse_line ext (g, l) ("<type " +:+ X +:+ ">") =
    Some (({| variable_map := variable_map g;
              type_options_map :=
                match type_options_map g !! X with
                | Some _ => type_options_map g
                | None => <[X := []]> (type_options_map g)
                end;
              raw_code := raw_code g |},
           {| current_type := X; flag_is_prepend := false; flag_is_raw := false |}),
          []).
Proof.
  intros Hr. unfold parse_line.
  assert (Ht : trim ("<type " +:+ X +:+ ">") = Some ("<type " +:+ X +:+ ">")).
  { apply trim_id; [exact Hr |]. unfold is_trimmed.
    replace (back ("<type " +:+ X +:+ ">")) with (Some ">"%char)
      by (now rewrite <- sapp_assoc, back_app_char).
    reflexivity. }
  rewrite Ht. cbn [mbind option_bind]. rewrite !find_eq_0, prefix_app.
  replace (empty ("<type " +:+ X +:+ ">")) with false by reflexivity.
  replace (String.prefix "SET " ("<type " +:+ X +:+ ">")) with false
    by reflexivity.
  replace (size ("<type " +:+ X +:+ ">") - 7) with (size X)
    by (rewrite !size_app; change (size "<type ") with 6;
        change (size ">") with 1; lia).
  change 6 with (size "<type ") at 1.
  rewrite substr_mid by exact Hr. reflexivity.
Qed.

End LineFacts.
Import LineFacts.

(** * The [SET] branch *)

Module SetFacts.

Lemma mem_String_false (c x : ascii) (s : string) :
  mem c (String x s) = false -> Ascii.eqb c x = false /\ mem c s = false.
Proof. simpl. destruct (Ascii.eqb c x); [discriminate | now split]. Qed.

Lemma first_index_app_char (c : ascii) (a b : string) :
  mem c a = false ->
  first_index (Ascii.eqb c) (a +:+ String c b) = Some (String.length a).
Proof.
  induction a as [|x a IH]; intros H.
  - rewrite sapp_empty. simpl. now rewrite Ascii.eqb_refl.
  - apply mem_String_false in H as [Hx Ha]. rewrite sapp_String. simpl.
    rewrite Hx, (IH Ha). reflexivity.
Qed.

Lemma first_index_absent (c : ascii) (s : string) :
  mem c s = false -> first_index (Ascii.eqb c) s = None.
Proof.
  induction s as [|x s IH]; intros H; [reflexivity |].
  apply mem_String_false in H as [Hx Hs]. simpl. now rewrite Hx, (IH Hs).
Qed.

(** A line [SET a=b] whose name part [a] has no equals sign: the key is the
    trimmed [a] between angle brackets, the value is the trimmed [b] with
    its surrounding double quotes removed. *)
Lemma parse_line_SET (ext : string) (g : Globals) (l : Locals)
    (line a b : string) :
  representable ("SET " +:+ a +:+ "=" +:+ b) ->
  trim line = Some ("SET " +:+ a +:+ "=" +:+ b) ->
  mem "=" a = false ->
  parse_line ext (g, l) line =
    v ← strip_value_quotes (rtrim (ltrim b));
    Some (({| variable_map :=
                <["<" +:+ rtrim (ltrim a) +:+ ">" := v]> (variable_map g);
              type_options_map := type_options_map g;
              raw_code := raw_code g |}, l), []).
Proof.
  intros Hr Ht Ha. unfold parse_line. rewrite Ht.
  set (t := "SET " +:+ a +:+ "=" +:+ b) in *.
  cbn [mbind option_bind].
  replace (empty t) with false by reflexivity.
  rewrite find_eq_0. unfold t at 1. rewrite prefix_app.
  assert (Heq : find_char t "=" 4 = 4 + size a).
  { unfold find_char, t. change (Z.to_nat 4) with (String.length "SET ").
    rewrite sdrop_app. change ("=" +:+ b) with (String "=" b).
    rewrite first_index_app_char by exact Ha. reflexivity. }
  rewrite Heq.
  pose proof (size_nonneg a) as H0a. pose proof (size_nonneg b) as H0b.
  assert (Hsz : size t = 4 + size a + 1 + size b).
  { unfold t. rewrite !size_app. change (size "SET ") with 4.
    change (size "=") with 1. lia. }
  unfold representable in Hr. fold t in Hr.
  destruct (Z.eqb_spec (4 + size a) npos) as [E|_];
    [unfold npos in E; lia |].
  replace (4 + size a - 4) with (size a) by lia.
  assert (Hsub1 : substr t 4 (wrap (size a)) = Some a)
    by (apply (substr_mid "SET " a ("=" +:+ b)); exact Hr).
  assert (Hsub2 : substr t (wrap (4 + size a + 1)) npos = Some b).
  { replace (4 + size a + 1) with (size ("SET " +:+ a +:+ "="))
      by (rewrite !size_app; change (size "SET ") with 4;
          change (size "=") with 1; lia).
    replace t with (("SET " +:+ a +:+ "=") +:+ b)
      by (unfold t; now rewrite !sapp_assoc).
    apply substr_rest. unfold representable. rewrite !sapp_assoc. exact Hr. }
  rewrite Hsub1. cbn [mbind option_bind].
  rewrite trim_spec by (unfold representable; lia).
  cbn [mbind option_bind]. rewrite Hsub2. cbn [mbind option_bind].
  rewrite trim_spec by (unfold representable; lia).
  reflexivity.
Qed.

Lemma back_app (a b : string) : b <> "" -> back (a +:+ b) = back b.
Proof.
  intros Hb. induction a as [|x a IH]; [reflexivity |].
  rewrite sapp_String, back_String; [exact IH |].
  destruct a; [now rewrite sapp_empty | discriminate].
Qed.

Lemma front_app (a b : string) : a <> "" -> front (a +:+ b) = front a.
Proof. destruct a; [congruence | reflexivity]. Qed.

(** The usual spelling [SET name = value]. *)
Lemma parse_line_SET_name_value (ext : string) (g : Globals) (l : Locals)
    (name value : string) :
  representable ("SET " +:+ name +:+ " = " +:+ value) ->
  is_trimmed name = true -> mem "=" name = false ->
  is_trimmed value = true ->
  parse_line ext (g, l) ("SET " +:+ name +:+ " = " +:+ value) =
    v ← strip_value_quotes value;
    Some (({| variable_map := <["<" +:+ name +:+ ">" := v]> (variable_map g);
              type_options_map := type_options_map g;
              raw_code := raw_code g |}, l), []).
Proof.
  intros Hr Hn Heq Hv.
  set (line := "SET " +:+ name +:+ " = " +:+ value) in *.
  assert (Hname : rtrim (ltrim (name +:+ " ")) = name).
  { destruct (is_trimmed_inv _ Hn) as [->|(Hne & Hl & Hrt)]; [reflexivity |].
    rewrite ltrim_id.
    - rewrite rtrim_app_blank by reflexivity. exact Hrt.
    - rewrite front_app by exact Hne. destruct name as [|c n]; [congruence |].
      simpl in Hl. simpl. destruct (not_blank c) eqn:Ec; [reflexivity |].
      exfalso. pose proof (length_ltrim n) as Hlen. rewrite Hl in Hlen.
      simpl in Hlen. lia. }
  assert (Ha : mem "=" (name +:+ " ") = false)
    by (rewrite mem_app, Heq; reflexivity).
  destruct (is_trimmed_inv _ Hv) as [Ev|(Hne & Hl & Hrt)].
  - (* empty value: the trailing blank of the line is trimmed away *)
    subst value.
    assert (Ht : trim line = Some ("SET " +:+ (name +:+ " ") +:+ "=" +:+ "")).
    { rewrite trim_spec by exact Hr. rewrite ltrim_id by reflexivity. f_equal.
      replace line with (("SET " +:+ name +:+ " ") +:+ "= ")
        by (unfold line; now rewrite !sapp_assoc).
      rewrite rtrim_app by discriminate. now rewrite !sapp_assoc. }
    rewrite (parse_line_SET ext g l line (name +:+ " ") "" ); auto.
    + now rewrite Hname.
    + unfold representable in *. unfold line in Hr.
      rewrite !size_app in *. change (size " = ") with 3 in Hr.
      change (size "=") with 1. change (size " ") with 1.
      change (size "") with 0 in *. lia.
  - assert (Ht : trim line = Some ("SET " +:+ (name +:+ " ") +:+ "=" +:+ " " +:+ value)).
    { rewrite trim_id; [unfold line; now rewrite !sapp_assoc | exact Hr |].
      destruct (is_trimmed_back _ Hv Hne) as (b & Eb & Hb).
      unfold is_trimmed.
      replace (back line) with (Some b).
      - simpl front. now rewrite Hb.
      - unfold line. rewrite <- Eb. symmetry.
        rewrite <- !sapp_assoc. now apply back_app. }
    rewrite (parse_line_SET ext g l line (name +:+ " ") (" " +:+ value)); auto.
    + rewrite Hname. change (" " +:+ value) with (String " " value).
      rewrite ltrim_blank by reflexivity. now rewrite Hl, Hrt.
    + replace ("SET " +:+ (name +:+ " ") +:+ "=" +:+ " " +:+ value) with line;
        [exact Hr | unfold line; now rewrite !sapp_assoc].
Qed.

End SetFacts.
Import SetFacts.

(** * Invariants of the parsing loop *)

Module LoopFacts.

Ltac split_parse H :=
  repeat (cbn [mbind option_bind] in H;
          match type of H with
          | (?x ≫= _) = Some _ => destruct x eqn:?; [|discriminate H]
          | (if ?b then _ else _) = Some _ => destruct b eqn:?
          | Some _ = Some _ => inversion H; subst; clear H
          end).

Lemma parse_line_effect (ext : string) (g g' : Globals) (l l' : Locals)
    (line : string) (ev : list Event) :
  parse_line ext (g, l) line = Some ((g', l'), ev) -> effect ext g l g' l'.
Proof.
  unfold parse_line. intros H. split_parse H; try (constructor; fail).
  - match goal with
    | Hc : _ && _ = true |- _ => apply andb_true_iff in Hc as [Hraw Heq]
    end.
    apply String.eqb_eq in Heq. apply effect_raw_line; auto.
    now apply empty_false.
  - apply effect_option; [now apply empty_false |].
    match goal with
    | Hc : _ && _ = false |- _ => apply andb_false_iff in Hc as [Hraw|Hne]
    end; [now left | right].
    now apply String.eqb_neq.
Qed.

Lemma parse_lines_app (ext : string) (pre post : list string) (st : PState) :
  parse_lines ext (pre ++ post) st =
    '(st1, ev1) ← parse_lines ext pre st;
    '(st2, ev2) ← parse_lines ext post st1;
    Some (st2, ev1 ++ ev2).
Proof.
  revert st. induction pre as [|line pre IH]; intros st; simpl.
  - destruct (parse_lines ext post st) as [[st2 ev2]|]; reflexivity.
  - destruct (parse_line ext st line) as [[st0 ev0]|]; [|reflexivity].
    cbn [mbind option_bind]. rewrite IH.
    destruct (parse_lines ext pre st0) as [[st1 ev1]|]; [|reflexivity].
    cbn [mbind option_bind].
    destruct (parse_lines ext post st1) as [[st2 ev2]|]; [|reflexivity].
    cbn [mbind option_bind]. now rewrite List.app_assoc.
Qed.

Lemma parse_lines_cons (ext : string) (line : string) (rest : list string)
    (st st1 : PState) (ev1 : list Event) :
  parse_line ext st line = Some (st1, ev1) ->
  parse_lines ext (line :: rest) st =
    '(st2, ev2) ← parse_lines ext rest st1; Some (st2, ev1 ++ ev2).
Proof. intros H. simpl. rewrite H. reflexivity. Qed.

(** The three mode directives. *)
Lemma parse_line_prepend (ext : string) (g : Globals) (l : Locals) :
  parse_line ext (g, l) "<prepend>" =
    Some ((g, {| current_type := current_type l; flag_is_prepend := true;
                 flag_is_raw := flag_is_raw l |}), []).
Proof. reflexivity. Qed.

Lemma parse_line_append (ext : string) (g : Globals) (l : Locals) :
  parse_line ext (g, l) "<append>" =
    Some ((g, {| current_type := current_type l; flag_is_prepend := false;
                 flag_is_raw := flag_is_raw l |}), []).
Proof. reflexivity. Qed.

Lemma parse_line_raw (ext : string) (g : Globals) (l : Locals) :
  parse_line ext (g, l) "<raw>" =
    Some ((g, {| current_type := current_type l;
                 flag_is_prepend := flag_is_prepend l; flag_is_raw := true |}), []).
Proof. reflexivity. Qed.

(** The raw-lines list only grows, and only while the open type group is
    the target extension and raw mode is on. *)
Lemma parse_line_raw_code (ext : string) (g g' : Globals) (l l' : Locals)
    (line : string) (ev : list Event) :
  parse_line ext (g, l) line = Some ((g', l'), ev) ->
  raw_code g' = raw_code g
  \/ (exists t, raw_code g' = raw_code g ++ [t])
     /\ current_type l <> "" /\ flag_is_raw l = true /\ current_type l = ext.
Proof.
  intros H. apply parse_line_effect in H.
  inversion H; subst; simpl; auto. right. eauto.
Qed.

Lemma mem_sdrop (c : ascii) (n : nat) (s : string) :
  mem c s = false -> mem c (sdrop n s) = false.
Proof.
  revert s. induction n as [|n IH]; intros [|x s] H; simpl; auto.
  apply mem_String_false in H as [_ H]. auto.
Qed.

(** A [SET] line without an equals sign. *)
Lemma parse_line_malformed_SET (ext : string) (st : PState) (line t : string) :
  trim line = Some t -> String.prefix "SET " t = true -> mem "=" t = false ->
  parse_line ext st line = Some (st, [ErrInvalidSet t]).
Proof.
  intros Ht Hp Hm. destruct st as [g l]. unfold parse_line. rewrite Ht.
  cbn [mbind option_bind].
  destruct (empty t) eqn:He.
  { apply empty_true in He. subst t. discriminate Hp. }
  rewrite find_eq_0, Hp.
  replace (find_char t "=" 4) with npos; [reflexivity |].
  unfold find_char. now rewrite first_index_absent by now apply mem_sdrop.
Qed.

(** An option line while no type group is open. *)
Lemma parse_line_outside_type (ext : string) (g : Globals) (l : Locals)
    (line t : string) :
  option_line line t -> current_type l = "" ->
  parse_line ext (g, l) line = Some ((g, l), [ErrOptionOutsideType t]).
Proof.
  intros Ho Hc. rewrite (parse_line_option_line ext g l line t Ho).
  now rewrite Hc.
Qed.

End LoopFacts.
Import LoopFacts.

(** * Merging the option lists *)

Module MergeFacts.

Lemma split_options_acc (opts : list Option) (pre app : list string) :
  fold_left
    (fun (acc : list string * list string) (opt : Option) =>
       if is_prepend opt
       then (acc.1 ++ [identifier opt], acc.2)
       else (acc.1, acc.2 ++ [identifier opt]))
    opts (pre, app)
  = (pre ++ map identifier (List.filter is_prepend opts),
     app ++ map identifier (List.filter (fun o => negb (is_prepend o)) opts)).
Proof.
  revert pre app. induction opts as [|o opts IH]; intros pre app; simpl.
  - now rewrite !List.app_nil_r.
  - destruct (is_prepend o); simpl; rewrite IH; simpl;
      now rewrite <- ?List.app_assoc.
Qed.

Lemma split_options_spec (opts : list Option) :
  split_options opts
  = (map identifier (List.filter is_prepend opts),
     map identifier (List.filter (fun o => negb (is_prepend o)) opts)).
Proof. unfold split_options. now rewrite split_options_acc. Qed.

Lemma push_identifiers (opts : list Option) (acc : list string) :
  fold_left (fun acc opt => acc ++ [identifier opt]) opts acc
  = acc ++ map identifier opts.
Proof.
  revert acc. induction opts as [|o opts IH]; intros acc; simpl.
  - now rewrite List.app_nil_r.
  - rewrite IH. now rewrite <- List.app_assoc.
Qed.

Lemma prepend_options_spec (g : Globals) (ext : string) :
  prepend_options g ext
  = map identifier (List.filter is_prepend (default [] (type_options_map g !! ext))).
Proof.
  unfold prepend_options. destruct (type_options_map g !! ext); simpl;
    [now rewrite split_options_spec | reflexivity].
Qed.

Lemma append_options_spec (g : Globals) (ext : string) :
  append_options g ext
  = map identifier (List.filter (fun o => negb (is_prepend o))
                      (default [] (type_options_map g !! ext))).
Proof.
  unfold append_options. destruct (type_options_map g !! ext); simpl;
    [now rewrite split_options_spec | reflexivity].
Qed.

Lemma default_options_spec (g : Globals) :
  default_options g = map identifier (default [] (type_options_map g !! ".all")).
Proof.
  unfold default_options. destruct (type_options_map g !! ".all"); simpl;
    [now rewrite push_identifiers | reflexivity].
Qed.

Lemma all_options_spec (g : Globals) (ext : string) :
  all_options g ext
  = map identifier (List.filter is_prepend (default [] (type_options_map g !! ext)))
    ++ map identifier (default [] (type_options_map g !! ".all"))
    ++ map identifier (List.filter (fun o => negb (is_prepend o))
                         (default [] (type_options_map g !! ext))).
Proof.
  unfold all_options.
  rewrite prepend_options_spec, append_options_spec, default_options_spec.
  simpl. now rewrite <- List.app_assoc.
Qed.

End MergeFacts.
Import MergeFacts.

(** * Rendering *)

Module RenderFacts.

Lemma front_is (c d : ascii) (s : string) :
  bool_decide (front (String c s) = Some d) = Ascii.eqb c d.
Proof.
  simpl. destruct (Ascii.eqb_spec c d) as [->|Hne].
  - now apply bool_decide_eq_true.
  - apply bool_decide_eq_false. congruence.
Qed.

(** The copy computed by the code is the copy the specification describes. *)
Lemma raw_trimmed_spec (line : string) :
  representable line -> raw_trimmed line = Some (Spec.stripped_copy line).
Proof.
  intros Hr. unfold raw_trimmed, Spec.stripped_copy.
  destruct line as [|c s]; [reflexivity |].
  rewrite !front_is. simpl negb. simpl Spec.leading_quote. rewrite andb_true_l.
  destruct (Ascii.eqb c DQUOTE || Ascii.eqb c SQUOTE); [|reflexivity].
  now apply substr_strip.
Qed.

Lemma add_raw_line_spec (msg line : string) :
  representable line ->
  add_raw_line msg line = Some (msg +:+ Spec.raw_line line).
Proof.
  intros Hr. unfold add_raw_line, Spec.raw_line.
  rewrite raw_trimmed_spec by exact Hr. cbn [mbind option_bind].
  destruct (String.eqb _ _); reflexivity.
Qed.

Lemma add_raw_lines_spec (lines : list string) (msg : string) :
  Forall representable lines ->
  add_raw_lines msg lines = Some (msg +:+ Spec.raw_lines lines).
Proof.
  intros Hall. revert msg.
  induction Hall as [|line rest Hr _ IH]; intros msg; simpl.
  - now rewrite sapp_nil_r.
  - rewrite add_raw_line_spec by exact Hr. cbn [mbind option_bind].
    rewrite IH. now rewrite sapp_assoc.
Qed.

Lemma add_raw_code_spec (g : Globals) (msg : string) :
  Forall representable (raw_code g) ->
  add_raw_code g msg = Some (msg +:+ Spec.raw_block (raw_code g)).
Proof.
  intros Hall. unfold add_raw_code, Spec.raw_block.
  destruct (raw_code g) as [|line rest] eqn:E; [now rewrite sapp_nil_r |].
  rewrite add_raw_lines_spec by exact Hall. now rewrite sapp_assoc.
Qed.

Lemma options_message_acc (comment : string) (vm : gmap string string)
    (today filename : string) (opts : list string) (msg : string) :
  fold_left
    (fun file_message opt =>
       file_message +:+
       ((comment +:+ convert_option vm today opt filename) +:+ NL))
    opts msg
  = msg +:+ option_lines comment vm today filename opts.
Proof.
  revert msg. induction opts as [|opt rest IH]; intros msg; simpl.
  - now rewrite sapp_nil_r.
  - rewrite IH. now rewrite sapp_assoc.
Qed.

Lemma options_message_spec (g : Globals) (today ext filename : string) :
  options_message g today ext filename
  = option_lines (comment_str ext) (variable_map g) today filename
      (all_options g ext).
Proof. unfold options_message. now rewrite options_message_acc. Qed.

End RenderFacts.
Import RenderFacts.

(** * From a [SET] line to the rendered text *)

Module PlaceholderFacts.

Lemma sapp_inj_r (a b c : string) : a +:+ c = b +:+ c -> a = b.
Proof.
  revert b. induction a as [|x a IH]; intros [|y b] H.
  - reflexivity.
  - apply (f_equal String.length) in H. rewrite sapp_empty in H.
    rewrite slength_app in H. simpl in H. lia.
  - apply (f_equal String.length) in H. rewrite sapp_empty in H.
    rewrite slength_app in H. simpl in H. lia.
  - rewrite !sapp_String in H. injection H as -> H. f_equal. now apply IH.
Qed.

Lemma placeholder_inj (a b : string) :
  "<" +:+ a +:+ ">" = "<" +:+ b +:+ ">" -> a = b.
Proof.
  rewrite !sapp_String, !sapp_empty. intros H. injection H as H.
  now apply sapp_inj_r in H.
Qed.

(** Lines without the [SET] prefix leave every variable alone. *)
Lemma not_SET_leaves_variable (ext key line t : string) :
  trim line = Some t -> String.prefix "SET " t = false ->
  leaves_variable ext key line.
Proof.
  intros Ht Hp [g l] [g' l'] ev H. unfold parse_line in H.
  rewrite Ht in H. cbn [mbind option_bind] in H.
  rewrite find_eq_0, Hp in H.
  split_parse H; reflexivity.
Qed.

Lemma parse_lines_variable (ext key : string) (lines : list string)
    (st st' : PState) (ev : list Event) :
  Forall (leaves_variable ext key) lines ->
  parse_lines ext lines st = Some (st', ev) ->
  variable_map st'.1 !! key = variable_map st.1 !! key.
Proof.
  intros Hall. revert st ev.
  induction Hall as [|line rest Hl _ IH]; intros st ev H; simpl in H.
  - now injection H as <- _.
  - destruct (parse_line ext st line) as [[st1 ev1]|] eqn:E1; [|discriminate].
    cbn [mbind option_bind] in H.
    destruct (parse_lines ext rest st1) as [[st2 ev2]|] eqn:E2; [|discriminate].
    cbn [mbind option_bind] in H. injection H as <- _.
    rewrite (IH _ _ E2). now apply (Hl _ _ _ E1).
Qed.

(** Type groups only grow, and at their end. *)
Lemma parse_line_groups (ext : string) (g g' : Globals) (l l' : Locals)
    (line : string) (ev : list Event) (k : string) :
  parse_line ext (g, l) line = Some ((g', l'), ev) ->
  exists new,
    default [] (type_options_map g' !! k)
    = default [] (type_options_map g !! k) ++ new.
Proof.
  intros H. apply parse_line_effect in H.
  inversion H; subst; simpl; try (exists []; now rewrite List.app_nil_r).
  - destruct (type_options_map g !! X) eqn:E;
      [exists []; now rewrite List.app_nil_r |].
    exists []. rewrite List.app_nil_r.
    destruct (decide (X = k)) as [->|Hne].
    + now rewrite lookup_insert_eq, E.
    + now rewrite lookup_insert_ne.
  - destruct (decide (current_type l' = k)) as [<-|Hne].
    + rewrite lookup_insert_eq. eexists. reflexivity.
    + rewrite lookup_insert_ne by exact Hne. exists [].
      now rewrite List.app_nil_r.
Qed.

Lemma parse_lines_groups (ext : string) (lines : list string)
    (st st' : PState) (ev : list Event) (k : string) :
  parse_lines ext lines st = Some (st', ev) ->
  exists new,
    default [] (type_options_map st'.1 !! k)
    = default [] (type_options_map st.1 !! k) ++ new.
Proof.
  revert st ev. induction lines as [|line rest IH]; intros st ev H; simpl in H.
  - injection H as <- _. exists []. now rewrite List.app_nil_r.
  - destruct (parse_line ext st line) as [[st1 ev1]|] eqn:E1; [|discriminate].
    cbn [mbind option_bind] in H.
    destruct (parse_lines ext rest st1) as [[st2 ev2]|] eqn:E2; [|discriminate].
    cbn [mbind option_bind] in H. injection H as <- _.
    destruct st as [g l], st1 as [g1 l1].
    destruct (parse_line_groups _ _ _ _ _ _ _ k E1) as [new1 H1].
    destruct (IH _ _ E2) as [new2 H2]. simpl in *.
    exists (new1 ++ new2). now rewrite H2, H1, List.app_assoc.
Qed.

(** Every option of the target's group and of the [.all] group is merged. *)
Lemma all_options_elem (g : Globals) (ext k : string) (o : Option) :
  k = ext \/ k = ".all" ->
  In o (default [] (type_options_map g !! k)) ->
  In (identifier o) (all_options g ext).
Proof.
  intros Hk Ho. rewrite all_options_spec. rewrite !List.in_app_iff.
  destruct Hk as [-> | ->].
  - destruct (is_prepend o) eqn:Ep.
    + left. apply List.in_map, List.filter_In. auto.
    + right. right. apply List.in_map, List.filter_In. split; [auto |].
      now rewrite Ep.
  - right. left. now apply List.in_map.
Qed.

Lemma option_lines_contains (comment : string) (vm : gmap string string)
    (today filename opt : string) (opts : list string) :
  In opt opts ->
  contains (option_lines comment vm today filename opts)
    ((comment +:+ convert_option vm today opt filename) +:+ NL).
Proof.
  induction opts as [|o rest IH]; intros Hin; [destruct Hin |].
  destruct Hin as [->|Hin].
  - exists "", (option_lines comment vm today filename rest). reflexivity.
  - destruct (IH Hin) as (before & after & E).
    exists (((comment +:+ convert_option vm today o filename) +:+ NL) +:+ before),
      after.
    simpl. rewrite E. now rewrite !sapp_assoc.
Qed.

Lemma first_occurrence_eq (pat s : string) :
  first_occurrence pat s
  = if String.prefix pat s then Some O
    else match s with
         | EmptyString => None
         | String _ s' => S <$> first_occurrence pat s'
         end.
Proof. destruct s; reflexivity. Qed.

Lemma contains_first_occurrence (text piece : string) :
  contains text piece -> is_Some (first_occurrence piece text).
Proof.
  intros (before & after & ->).
  induction before as [|c before IH]; rewrite first_occurrence_eq.
  - rewrite sapp_empty, prefix_app. eauto.
  - rewrite sapp_String.
    destruct (String.prefix piece _); [eauto |].
    destruct IH as [i ->]. simpl. eauto.
Qed.

Lemma contains_app_l (text tail piece : string) :
  contains text piece -> contains (text +:+ tail) piece.
Proof.
  intros (before & after & ->). exists before, (after +:+ tail).
  now rewrite !sapp_assoc.
Qed.

Lemma strip_value_quotes_unquoted (value v : string) :
  representable value -> unquoted value v ->
  strip_value_quotes value = Some v.
Proof.
  intros Hr Hu. destruct Hu as [inner | v Hplain |].
  - unfold strip_value_quotes.
    replace (back (DQ +:+ inner +:+ DQ)) with (Some DQUOTE)
      by (unfold DQ; now rewrite <- sapp_assoc, back_app_char).
    replace (front (DQ +:+ inner +:+ DQ)) with (Some DQUOTE) by reflexivity.
    rewrite !bool_decide_eq_true_2 by reflexivity.
    replace (empty (DQ +:+ inner +:+ DQ)) with false by reflexivity.
    cbn [negb andb].
    rewrite substr_strip by (exact Hr || discriminate). f_equal.
    unfold DQ. rewrite sapp_String, sapp_empty. simpl without_ends.
    apply remove_last_app_char.
  - unfold strip_value_quotes.
    destruct Hplain as [Hf|Hb].
    + rewrite (bool_decide_eq_false_2 _ Hf). now rewrite andb_false_r.
    + rewrite (bool_decide_eq_false_2 _ Hb). now rewrite andb_false_r.
  - reflexivity.
Qed.

Lemma back_split (s : string) (b : ascii) :
  back s = Some b -> exists a, s = a +:+ String b "".
Proof.
  induction s as [|c s IH]; [discriminate |].
  destruct s as [|d s].
  - simpl. intros H. injection H as ->. now exists "".
  - rewrite back_String by discriminate. intros H.
    destruct (IH H) as [a ->]. exists (String c a). now rewrite sapp_String.
Qed.

(** The three cases of [unquoted] cover every value, and they determine the
    result. *)
Lemma unquoted_total (value : string) : exists v, unquoted value v.
Proof.
  destruct value as [|c s].
  - exists "". apply unquoted_plain. left. discriminate.
  - destruct (Ascii.eqb_spec c DQUOTE) as [->|Hc].
    + destruct s as [|d s]; [exists ""; apply unquoted_lone |].
      destruct (back (String d s)) as [b|] eqn:Eb.
      * destruct (Ascii.eqb_spec b DQUOTE) as [->|Hb].
        -- destruct (back_split _ _ Eb) as [inner ->]. exists inner.
           apply (unquoted_pair inner).
        -- eexists. apply unquoted_plain. right.
           rewrite back_String by discriminate. rewrite Eb. congruence.
      * now apply back_None in Eb.
    + eexists. apply unquoted_plain. left. simpl. congruence.
Qed.

Lemma unquoted_functional (value v v' : string) :
  representable value -> unquoted value v -> unquoted value v' -> v' = v.
Proof.
  intros Hr Hv Hv'.
  apply (strip_value_quotes_unquoted _ _ Hr) in Hv, Hv'. congruence.
Qed.

End PlaceholderFacts.
Import PlaceholderFacts.

(** * The claims *)

(** C1, as the code has it. Placeholders are resolved by looking up the whole
    option line, not by searching inside it. Take a config with a line
    [SET name = value] (name and value without surrounding blanks, no equals
    sign in the name, the name neither [date] nor [file], [<name>] not a
    directive) and, later, an option line that is exactly [<name>], read
    while a type group with a non-empty name equal to the target extension
    or to [.all] is open and the line is not captured as raw code, no other
    line writing the variable after the [SET] line. Then the rendered text
    contains the line made of the comment prefix, the stored value and a
    newline; the stored value is the value with its surrounding pair of
    double quotes removed, the value itself when it does not both start and
    end with a double quote, and the empty string when the value is a
    double quote alone. An option line that is not [<date>], not [<file>]
    and not a key of the variable map is rendered as it stands after the
    comment prefix, also when it contains [<name>] among other text: the
    scenario of section 8 with target extension [.py] renders
    [# DATE: <today>] and then [# author: <author>]. *)
Theorem set_then_placeholder_option :
  (forall (path ext today filename name value : string)
          (pre mid post : list string) (g1 : Globals) (l1 : Locals)
          (ev1 : list Event),
     let set_line := "SET " +:+ name +:+ " = " +:+ value in
     let opt_line := "<" +:+ name +:+ ">" in
     representable set_line ->
     is_trimmed name = true -> mem "=" name = false ->
     is_trimmed value = true ->
     name <> "date" -> name <> "file" ->
     option_line opt_line opt_line ->
     Forall (leaves_variable ext opt_line) (mid ++ post) ->
     parse_lines ext (pre ++ set_line :: mid) (initial_globals, initial_locals)
       = Some ((g1, l1), ev1) ->
     current_type l1 <> "" ->
     current_type l1 = ext \/ current_type l1 = ".all" ->
     (flag_is_raw l1 = true -> current_type l1 <> ext) ->
     exists v g evs out,
       unquoted value v
       /\ (forall v', unquoted value v' -> v' = v)
       /\ parse_config_file path (Some (pre ++ set_line :: mid ++ opt_line :: post))
            ext initial_globals = Some (g, evs)
       /\ variable_map g !! opt_line = Some v
       /\ In opt_line (all_options g ext)
       /\ render g today ext filename = Some out
       /\ contains out ((comment_str ext +:+ v) +:+ NL))
  /\ (forall (g : Globals) (today ext filename opt : string),
        In opt (all_options g ext) ->
        opt <> "<date>" -> opt <> "<file>" ->
        variable_map g !! opt = None ->
        exists out,
          render g today ext filename = Some out
          /\ contains out ((comment_str ext +:+ opt) +:+ NL))
  /\ (forall path today filename : string,
        exists g,
          parse_config_file path (Some scenario_config) ".py" initial_globals
            = Some (g, [])
          /\ variable_map g !! "<author>" = Some "Alice"
          /\ variable_map g !! "author: <author>" = None
          /\ all_options g ".py" = ["<date>"; "author: <author>"]
          /\ render g today ".py" filename
             = Some ("# DATE: " +:+ today +:+ NL +:+ "# author: <author>" +:+ NL)).
Proof.
  split; [|split].
  - intros path ext today filename name value pre mid post g1 l1 ev1
      set_line opt_line Hr Hn Heq Hv Hdate Hfile Hopt Hleave Hprefix
      Hct Happl Hraw.
    assert (Hrv : representable value).
    { apply (representable_app_r " = " value), (representable_app_r name),
        (representable_app_r "SET "). exact Hr. }
    destruct (unquoted_total value) as [v Hu].
    apply Forall_app in Hleave as [Hmid Hpost].
    (* the prefix, the SET line, the lines in between *)
    rewrite parse_lines_app in Hprefix.
    destruct (parse_lines ext pre (initial_globals, initial_locals))
      as [[[g0 l0] ev0]|] eqn:Epre; [|discriminate].
    cbn [mbind option_bind] in Hprefix.
    assert (Hset : parse_line ext (g0, l0) set_line
                   = Some (({| variable_map := <[opt_line := v]> (variable_map g0);
                               type_options_map := type_options_map g0;
                               raw_code := raw_code g0 |}, l0), [])).
    { unfold set_line. rewrite parse_line_SET_name_value by assumption.
      now rewrite (strip_value_quotes_unquoted value v Hrv Hu). }
    rewrite (parse_lines_cons _ _ _ _ _ _ Hset) in Hprefix.
    destruct (parse_lines ext mid _) as [[st1 evm]|] eqn:Emid; [|discriminate].
    cbn [mbind option_bind] in Hprefix. injection Hprefix as -> _.
    pose proof (parse_lines_variable _ _ _ _ _ _ Hmid Emid) as Hvm1.
    simpl in Hvm1. rewrite lookup_insert_eq in Hvm1.
    (* the option line *)
    set (g2 := {| variable_map := variable_map g1;
                  type_options_map :=
                    <[current_type l1 :=
                        default [] (type_options_map g1 !! current_type l1)
                        ++ [{| identifier := opt_line;
                               is_prepend := flag_is_prepend l1 |}]]>
                      (type_options_map g1);
                  raw_code := raw_code g1 |}).
    assert (Hline : parse_line ext (g1, l1) opt_line = Some ((g2, l1), [])).
    { rewrite (parse_line_option_line _ _ _ _ _ Hopt).
      apply empty_false in Hct. rewrite Hct.
      destruct (flag_is_raw l1) eqn:Er; [|reflexivity].
      specialize (Hraw eq_refl). apply String.eqb_neq in Hraw.
      now rewrite Hraw. }
    (* the rest of the file *)
    destruct (parse_lines_total ext post (g2, l1)) as [[[g3 l3] ev3] Epost].
    pose proof (parse_lines_variable _ _ _ _ _ _ Hpost Epost) as Hvm3.
    simpl in Hvm3. rewrite Hvm1 in Hvm3.
    destruct (parse_lines_groups _ _ _ _ _ (current_type l1) Epost) as [new Hgrp].
    simpl in Hgrp. rewrite lookup_insert_eq in Hgrp. simpl in Hgrp.
    assert (Hin : In opt_line (all_options g3 ext)).
    { apply (all_options_elem g3 ext (current_type l1)
               {| identifier := opt_line; is_prepend := flag_is_prepend l1 |});
        [destruct Happl; auto |].
      rewrite Hgrp, !List.in_app_iff. left. right. now left. }
    destruct (add_raw_code_total g3 (options_message g3 today ext filename))
      as [tail Htail].
    exists v. eexists g3, _, _.
    split; [exact Hu |].
    split; [intros v' Hu'; exact (unquoted_functional value v v' Hrv Hu Hu') |].
    split; [|split; [exact Hvm3 | split; [exact Hin | split]]].
    + unfold parse_config_file.
      replace (pre ++ set_line :: mid ++ opt_line :: post)
        with (pre ++ [set_line] ++ mid ++ [opt_line] ++ post) by reflexivity.
      rewrite parse_lines_app, Epre. cbn [mbind option_bind].
      rewrite parse_lines_app.
      rewrite (parse_lines_cons _ _ [] _ _ _ Hset). cbn [mbind option_bind parse_lines].
      rewrite parse_lines_app, Emid. cbn [mbind option_bind].
      change ([opt_line] ++ post) with (opt_line :: post).
      rewrite (parse_lines_cons _ _ post _ _ _ Hline), Epost.
      cbn [mbind option_bind]. reflexivity.
    + unfold render. exact Htail.
    + apply contains_app_l. rewrite options_message_spec.
      replace v with (convert_option (variable_map g3) today opt_line filename)
        at 1; [now apply option_lines_contains |].
      unfold convert_option. rewrite Hvm3.
      destruct (String.eqb_spec opt_line "<date>") as [E|_];
        [apply (placeholder_inj name "date") in E; congruence |].
      destruct (String.eqb_spec opt_line "<file>") as [E|_];
        [apply (placeholder_inj name "file") in E; congruence |].
      reflexivity.
  - intros g today ext filename opt Hin Hdate Hfile Hnone.
    destruct (add_raw_code_total g (options_message g today ext filename))
      as [tail Htail].
    eexists. split; [unfold render; exact Htail |].
    apply contains_app_l. rewrite options_message_spec.
    assert (E : convert_option (variable_map g) today opt filename = opt).
    { unfold convert_option. rewrite Hnone.
      apply String.eqb_neq in Hdate, Hfile. now rewrite Hdate, Hfile. }
    pose proof (option_lines_contains (comment_str ext) (variable_map g) today
                  filename opt _ Hin) as Hc.
    rewrite E in Hc. exact Hc.
  - intros path today filename.
    exists {| variable_map := {["<author>" := "Alice"]};
              type_options_map :=
                {[".py" := [{| identifier := "<date>"; is_prepend := true |};
                            {| identifier := "author: <author>";
                               is_prepend := false |}]]};
              raw_code := [] |}.
    split; [vm_compute; reflexivity |]. split; [vm_compute; reflexivity |].
    split; [vm_compute; reflexivity |].
    assert (Hall : all_options
                     {| variable_map := {["<author>" := "Alice"]};
                        type_options_map :=
                          {[".py" := [{| identifier := "<date>"; is_prepend := true |};
                                      {| identifier := "author: <author>";
                                         is_prepend := false |}]]};
                        raw_code := [] |} ".py"
                   = ["<date>"; "author: <author>"])
      by (vm_compute; reflexivity).
    split; [exact Hall |].
    unfold render, add_raw_code. cbn [raw_code].
    rewrite options_message_spec, Hall. cbn [option_lines variable_map].
    replace (comment_str ".py") with "# " by (vm_compute; reflexivity).
    replace (convert_option {["<author>" := "Alice"]} today "author: <author>"
               filename) with "author: <author>" by (vm_compute; reflexivity).
    replace (convert_option {["<author>" := "Alice"]} today "<date>" filename)
      with ("DATE: " +:+ today) by reflexivity.
    f_equal. rewrite !sapp_assoc, sapp_nil_r. reflexivity.
Qed.

Lemma set_then_placeholder_option_witness :
  let pre := ["<type .py>"] in
  let mid := ["<prepend>"] in
  let post := ["<file>"] in
  let value := DQ +:+ "Alice" +:+ DQ in
  let set_line := "SET " +:+ "author" +:+ " = " +:+ value in
  let opt_line := "<" +:+ "author" +:+ ">" in
  let g1 := {| variable_map := {["<author>" := "Alice"]};
               type_options_map := {[".py" := []]}; raw_code := [] |} in
  let l1 := {| current_type := ".py"; flag_is_prepend := true;
               flag_is_raw := false |} in
  representable set_line
  /\ option_line opt_line opt_line
  /\ Forall (leaves_variable ".py" opt_line) (mid ++ post)
  /\ parse_lines ".py" (pre ++ set_line :: mid) (initial_globals, initial_locals)
     = Some ((g1, l1), [])
  /\ exists g evs out,
       parse_config_file "touch.conf"
         (Some (pre ++ set_line :: mid ++ opt_line :: post)) ".py" initial_globals
         = Some (g, evs)
       /\ variable_map g !! opt_line = Some "Alice"
       /\ In opt_line (all_options g ".py")
       /\ render g "2025-03-01" ".py" "main.py" = Some out
       /\ contains out ((comment_str ".py" +:+ "Alice") +:+ NL).
Proof.
  intros pre mid post value set_line opt_line g1 l1.
  assert (H1 : representable set_line) by reflexivity.
  assert (H3 : option_line opt_line opt_line)
    by (split; [reflexivity | split; [discriminate | reflexivity]]).
  assert (H4 : Forall (leaves_variable ".py" opt_line) (mid ++ post)).
  { repeat constructor.
    - apply (not_SET_leaves_variable _ _ _ "<prepend>"); reflexivity.
    - apply (not_SET_leaves_variable _ _ _ "<file>"); reflexivity. }
  assert (H5 : parse_lines ".py" (pre ++ set_line :: mid)
                 (initial_globals, initial_locals) = Some ((g1, l1), []))
    by (vm_compute; reflexivity).
  repeat (split; [assumption |]).
  destruct (proj1 set_then_placeholder_option "touch.conf" ".py" "2025-03-01"
              "main.py" "author" value pre mid post g1 l1 []
              H1 eq_refl eq_refl eq_refl ltac:(discriminate) ltac:(discriminate)
              H3 H4 H5 ltac:(discriminate) (or_introl eq_refl)
              ltac:(discriminate))
    as (v & g & evs & out & Hu & Huniq & Hp & Hvm & Hin & Hrender & Hcont).
  assert (Ev : v = "Alice")
    by (symmetry; apply Huniq; apply (unquoted_pair "Alice")).
  subst v. exists g, evs, out. auto.
Defined.

(** C1 as stated fails on its own scenario: the option line
    [author: <author>] is not a key of the variable map, although
    [<author>] is, and it is rendered unchanged; the second line is not
    [# author: Alice], and the value [Alice] occurs nowhere in the text. *)
Lemma set_placeholder_counterexample :
  exists g,
    parse_config_file "touch.conf" (Some scenario_config) ".py" initial_globals
      = Some (g, [])
    /\ variable_map g !! "<author>" = Some "Alice"
    /\ variable_map g !! "author: <author>" = None
    /\ render g "2025-03-01" ".py" "main.py"
       = Some ("# DATE: 2025-03-01" +:+ NL +:+ "# author: <author>" +:+ NL)
    /\ render g "2025-03-01" ".py" "main.py"
       <> Some ("# DATE: 2025-03-01" +:+ NL +:+ "# author: Alice" +:+ NL)
    /\ ~ contains ("# DATE: 2025-03-01" +:+ NL +:+ "# author: <author>" +:+ NL)
          "Alice".
Proof.
  exists {| variable_map := {["<author>" := "Alice"]};
            type_options_map :=
              {[".py" := [{| identifier := "<date>"; is_prepend := true |};
                          {| identifier := "author: <author>";
                             is_prepend := false |}]]};
            raw_code := [] |}.
  split; [vm_compute; reflexivity |]. split; [vm_compute; reflexivity |].
  split; [vm_compute; reflexivity |]. split; [vm_compute; reflexivity |].
  split; [vm_compute; discriminate |].
  intros Hc. apply contains_first_occurrence in Hc as [i Hi].
  vm_compute in Hi. discriminate Hi.
Qed.

(** C2, as the code has it. For the config made of [<type .all>], [<raw>]
    and one more line, and every target extension other than [.all], the
    raw-lines list is empty after parsing and the rendered text is the
    option lines alone: no raw block is emitted. *)
Theorem all_group_raw_not_captured (path ext line today filename : string) :
  ext <> ".all" ->
  exists g evs,
    parse_config_file path (Some ["<type .all>"; "<raw>"; line]) ext
      initial_globals = Some (g, evs)
    /\ raw_code g = []
    /\ render g today ext filename
       = Some (options_message g today ext filename).
Proof.
  intros Hext.
  set (g1 := {| variable_map := ∅; type_options_map := {[".all" := []]};
                raw_code := [] |}).
  set (l2 := {| current_type := ".all"; flag_is_prepend := false;
                flag_is_raw := true |}).
  assert (H12 : parse_lines ext ["<type .all>"; "<raw>"]
                  (initial_globals, initial_locals) = Some ((g1, l2), []))
    by reflexivity.
  destruct (parse_line_total ext (g1, l2) line) as [[[g3 l3] ev3] H3].
  assert (Hraw : raw_code g3 = []).
  { destruct (parse_line_raw_code _ _ _ _ _ _ _ H3) as [E|(_ & _ & _ & E)].
    - exact E.
    - simpl in E. congruence. }
  exists g3, ev3. split; [|split].
  - unfold parse_config_file.
    change ["<type .all>"; "<raw>"; line]
      with (["<type .all>"; "<raw>"] ++ [line]).
    rewrite parse_lines_app, H12. cbn [mbind option_bind].
    rewrite (parse_lines_cons _ _ _ _ _ _ H3). simpl.
    now rewrite List.app_nil_r.
  - exact Hraw.
  - unfold render, add_raw_code. now rewrite Hraw.
Qed.

Lemma all_group_raw_not_captured_witness :
  ".py" <> ".all"
  /\ exists g evs,
       parse_config_file "touch.conf" (Some ["<type .all>"; "<raw>"; BACKSLASH_N])
         ".py" initial_globals = Some (g, evs)
       /\ raw_code g = []
       /\ render g "2025-03-01" ".py" "a.py"
          = Some (options_message g "2025-03-01" ".py" "a.py").
Proof.
  assert (Hne : ".py" <> ".all") by discriminate.
  split; [exact Hne |].
  exact (all_group_raw_not_captured "touch.conf" ".py" BACKSLASH_N
           "2025-03-01" "a.py" Hne).
Defined.

(** C2 as stated fails for the target extension [.all]: for a file named
    [notes.all] the line after [<raw>] is captured, and a raw block (the
    separator and one blank line) is rendered. *)
Lemma all_group_raw_counterexample :
  let g := {| variable_map := ∅; type_options_map := {[".all" := []]};
              raw_code := [BACKSLASH_N] |} in
  extension_of "notes.all" = Some ".all"
  /\ parse_config_file "touch.conf" (Some ["<type .all>"; "<raw>"; BACKSLASH_N])
       ".all" initial_globals = Some (g, [])
  /\ raw_code g <> []
  /\ options_message g "2025-03-01" ".all" "notes.all" = ""
  /\ render g "2025-03-01" ".all" "notes.all" = Some (NL +:+ NL).
Proof.
  intros g. repeat split; try reflexivity. discriminate.
Qed.

(** C3. For every state of the type-group map: with the target
    extension's group holding N options tagged prepend and M tagged
    append, and the [.all] group holding K options, the merged sequence
    is the N prepend options in insertion order, then all K [.all] options
    in insertion order whatever their tags, then the M append options in
    insertion order; it has N + M + K entries. *)
Theorem merged_options_order (g : Globals) (file_extension : string) :
  let group := default [] (type_options_map g !! file_extension) in
  let all_group := default [] (type_options_map g !! ".all") in
  let N := List.length (List.filter is_prepend group) in
  let M := List.length (List.filter (fun o => negb (is_prepend o)) group) in
  let K := List.length all_group in
  all_options g file_extension
  = map identifier (List.filter is_prepend group)
    ++ map identifier all_group
    ++ map identifier (List.filter (fun o => negb (is_prepend o)) group)
  /\ List.length (all_options g file_extension) = (N + M + K)%nat.
Proof.
  intros group all_group N M K.
  pose proof (all_options_spec g file_extension) as E.
  fold group all_group in E.
  split; [exact E |].
  rewrite E, !List.length_app, !List.length_map. unfold N, M, K. lia.
Qed.

(** C4, as the code has it. An option line (non-empty after trimming, not a
    directive) is appended, trimmed, to the raw-lines list and not stored as
    an Option if and only if a type group with a non-empty name is open, raw
    mode is active and that name equals the target extension; and whatever
    the line, the raw-lines list changes only under these three conditions,
    so no raw line is captured for another type group. *)
Theorem raw_capture_condition (ext : string) (g : Globals) (l : Locals)
    (line : string) :
  exists g' l' ev,
    parse_line ext (g, l) line = Some ((g', l'), ev)
    /\ (forall t, option_line line t ->
          (raw_code g' = raw_code g ++ [t]
           /\ type_options_map g' = type_options_map g)
          <-> (current_type l <> "" /\ flag_is_raw l = true
               /\ current_type l = ext))
    /\ (raw_code g' <> raw_code g ->
        current_type l <> "" /\ flag_is_raw l = true /\ current_type l = ext).
Proof.
  destruct (parse_line_total ext (g, l) line) as [[[g' l'] ev] H].
  exists g', l', ev. split; [exact H |]. split.
  - intros t Ho. rewrite (parse_line_option_line ext g l line t Ho) in H.
    destruct (empty (current_type l)) eqn:He.
    { injection H as <- <- <-. apply empty_true in He. split.
      - intros [Hraw _]. apply (f_equal (@List.length string)) in Hraw.
        rewrite List.length_app in Hraw. simpl in Hraw. lia.
      - intros (Hne & _). congruence. }
    apply empty_false in He.
    destruct (flag_is_raw l && String.eqb (current_type l) ext) eqn:Hc.
    + injection H as <- <- <-. simpl.
      apply andb_true_iff in Hc as [Hraw Heq]. apply String.eqb_eq in Heq.
      tauto.
    + injection H as <- <- <-. simpl. split.
      * intros [Hraw _]. apply (f_equal (@List.length string)) in Hraw.
        rewrite List.length_app in Hraw. simpl in Hraw. lia.
      * intros (_ & Hraw & Heq). apply String.eqb_eq in Heq.
        rewrite Hraw, Heq in Hc. discriminate.
  - intros Hchg. destruct (parse_line_raw_code _ _ _ _ _ _ _ H) as [E|(_ & Hc)];
      [congruence | exact Hc].
Qed.

Lemma raw_capture_condition_witness :
  let g := {| variable_map := ∅; type_options_map := {[".c" := []]};
              raw_code := [] |} in
  let l := {| current_type := ".c"; flag_is_prepend := false;
              flag_is_raw := true |} in
  option_line "  int main(void) { return 0; }" "int main(void) { return 0; }"
  /\ exists g' l' ev,
       parse_line ".c" (g, l) "  int main(void) { return 0; }"
       = Some ((g', l'), ev)
       /\ raw_code g' = raw_code g ++ ["int main(void) { return 0; }"]
       /\ type_options_map g' = type_options_map g.
Proof.
  intros g l.
  assert (Ho : option_line "  int main(void) { return 0; }"
                           "int main(void) { return 0; }")
    by (split; [reflexivity | split; [discriminate | reflexivity]]).
  split; [exact Ho |].
  destruct (raw_capture_condition ".c" g l "  int main(void) { return 0; }")
    as (g' & l' & ev & Hp & Hiff & _).
  exists g', l', ev. split; [exact Hp |].
  apply (Hiff _ Ho). repeat split. discriminate.
Defined.

(** C4 as stated fails: with a target file without extension, after the
    lines [<type >] and [<raw>] raw mode is active and the name of the type
    group just opened, the empty string, equals the target extension; the
    following option line is nevertheless rejected with an error and the
    raw-lines list stays empty. *)
Lemma raw_capture_counterexample :
  let ext := "" in
  let g := {| variable_map := ∅; type_options_map := {["" := []]};
              raw_code := [] |} in
  let l := {| current_type := ""; flag_is_prepend := false;
              flag_is_raw := true |} in
  extension_of "Makefile" = Some ext
  /\ parse_lines ext ["<type >"; "<raw>"] (initial_globals, initial_locals)
     = Some ((g, l), [])
  /\ option_line "int x;" "int x;"
  /\ (flag_is_raw l = true /\ current_type l = ext)
  /\ parse_line ext (g, l) "int x;" = Some ((g, l), [ErrOptionOutsideType "int x;"])
  /\ ~ ((raw_code g = raw_code g ++ ["int x;"]
         /\ type_options_map g = type_options_map g)
        <-> (flag_is_raw l = true /\ current_type l = ext)).
Proof.
  intros ext g l.
  split; [reflexivity |]. split; [reflexivity |].
  split; [split; [reflexivity | split; [discriminate | reflexivity]] |].
  split; [split; reflexivity |]. split; [reflexivity |].
  intros [_ H]. destruct (H (conj eq_refl eq_refl)) as [Hraw _].
  discriminate Hraw.
Qed.

(** C5. With a non-empty raw-lines list the renderer emits, after the option
    lines, exactly one blank separator line and then, for each raw line in
    order: a blank line when the copy of the line without its leading quote
    (double or single) and its final character equals the backslash-n
    token, and the original unstripped line followed by a newline
    otherwise. *)
Theorem raw_block_rendering (g : Globals) (today file_extension filename : string) :
  Forall representable (raw_code g) ->
  raw_code g <> [] ->
  render g today file_extension filename
  = Some (options_message g today file_extension filename
          +:+ NL +:+ Spec.raw_lines (raw_code g)).
Proof.
  intros Hall Hne. unfold render. rewrite add_raw_code_spec by exact Hall.
  unfold Spec.raw_block. destruct (raw_code g); [congruence | reflexivity].
Qed.

Lemma raw_block_rendering_witness :
  let g := {| variable_map := ∅; type_options_map := ∅;
              raw_code := [DQ +:+ BACKSLASH_N +:+ DQ; "'use strict';"; SQ] |} in
  Forall representable (raw_code g) /\ raw_code g <> [] /\
  render g "2025-03-01" ".js" "app.js"
  = Some (NL +:+ NL +:+ "'use strict';" +:+ NL +:+ SQ +:+ NL).
Proof.
  intros g.
  assert (Hall : Forall representable (raw_code g)) by (repeat constructor).
  assert (Hne : raw_code g <> []) by discriminate.
  split; [exact Hall |]. split; [exact Hne |].
  rewrite (raw_block_rendering g "2025-03-01" ".js" "app.js" Hall Hne).
  reflexivity.
Defined.

(** C6. A [<type X>] directive makes [X] the current type and resets both
    flags, prepend mode and raw mode, to false. It changes nothing else when
    the group exists already: the options inserted before are kept (a
    missing group is created empty). Hence an option line that follows a
    reopened group (with a non-empty name) is stored at the end of that
    group with append placement. *)
Theorem type_directive_resets_flags (ext : string) (g : Globals) (l : Locals)
    (X : string) :
  representable ("<type " +:+ X +:+ ">") ->
  exists g',
    let l' := {| current_type := X; flag_is_prepend := false;
                 flag_is_raw := false |} in
    parse_line ext (g, l) ("<type " +:+ X +:+ ">") = Some ((g', l'), [])
    /\ variable_map g' = variable_map g
    /\ raw_code g' = raw_code g
    /\ (forall opts, type_options_map g !! X = Some opts -> g' = g)
    /\ (type_options_map g !! X = None ->
        type_options_map g' = <[X := []]> (type_options_map g))
    /\ (forall line t, option_line line t -> X <> "" ->
        exists g'',
          parse_line ext (g', l') line = Some ((g'', l'), [])
          /\ type_options_map g'' !! X
             = Some (default [] (type_options_map g !! X)
                     ++ [{| identifier := t; is_prepend := false |}])
          /\ raw_code g'' = raw_code g).
Proof.
  intros Hr. eexists. cbn zeta.
  split; [apply parse_line_type; exact Hr |].
  split; [reflexivity |]. split; [reflexivity |]. split; [|split].
  - intros opts Ho. rewrite Ho. now destruct g.
  - intros Ho. simpl. now rewrite Ho.
  - intros line t Ho HX. eexists.
    rewrite (parse_line_option_line _ _ _ line t Ho). simpl.
    apply empty_false in HX. rewrite HX.
    split; [reflexivity |]. simpl. split; [|reflexivity].
    rewrite lookup_insert_eq. do 2 f_equal.
    destruct (type_options_map g !! X) as [opts|] eqn:E; simpl.
    + now rewrite E.
    + now rewrite lookup_insert_eq.
Qed.

Lemma type_directive_resets_flags_witness :
  let g := {| variable_map := ∅;
              type_options_map :=
                {[".py" := [{| identifier := "<date>"; is_prepend := true |}]]};
              raw_code := [] |} in
  let l := {| current_type := ".py"; flag_is_prepend := true;
              flag_is_raw := true |} in
  let l' := {| current_type := ".py"; flag_is_prepend := false;
               flag_is_raw := false |} in
  representable ("<type " +:+ ".py" +:+ ">")
  /\ option_line "<file>" "<file>"
  /\ exists g' g'',
       parse_line ".py" (g, l) ("<type " +:+ ".py" +:+ ">") = Some ((g', l'), [])
       /\ g' = g
       /\ parse_line ".py" (g', l') "<file>" = Some ((g'', l'), [])
       /\ type_options_map g'' !! ".py"
          = Some [{| identifier := "<date>"; is_prepend := true |};
                  {| identifier := "<file>"; is_prepend := false |}].
Proof.
  intros g l l'.
  assert (Hr : representable ("<type " +:+ ".py" +:+ ">")) by reflexivity.
  assert (Ho : option_line "<file>" "<file>")
    by (split; [reflexivity | split; [discriminate | reflexivity]]).
  split; [exact Hr |]. split; [exact Ho |].
  destruct (type_directive_resets_flags ".py" g l ".py" Hr)
    as (g' & Hp & _ & _ & Hkeep & _ & Hnext).
  destruct (Hnext "<file>" "<file>" Ho ltac:(discriminate)) as (g'' & Hp2 & Hg & _).
  exists g', g''. split; [exact Hp |].
  split; [apply (Hkeep [{| identifier := "<date>"; is_prepend := true |}]);
          reflexivity |].
  split; [exact Hp2 | exact Hg].
Defined.

(** C7. When the configuration file cannot be opened, or is empty, the parser
    logs at most one error (exactly one in the first case, none in the
    second) and leaves the variable map, the type groups and the raw lines
    empty; the program goes on, the rendered text is the empty string, and
    the target file is created empty with exit status 0. *)
Theorem missing_or_empty_config (w : World) (prog filename : string)
    (rest : list string) :
  argv w = prog :: filename :: rest ->
  filename <> "--version" -> filename <> "--help" ->
  target_readable w = false
  \/ confirm_action (stdin_response w) (stdin_confirmation w) "overwrite" = true ->
  create_ok w = true -> write_ok w = true ->
  config_file w = None \/ config_file w = Some [] ->
  exists path ext errors,
    get_config_path (module_path w) = Some path
    /\ extension_of filename = Some ext
    /\ errors = match config_file w with
                | None => [ErrConfigOpen path]
                | Some _ => []
                end
    /\ (List.length errors <= 1)%nat
    /\ parse_config_file path (config_file w) ext initial_globals
       = Some (initial_globals, errors)
    /\ render initial_globals (today w) ext filename = Some ""
    /\ main w = Some {| exit_code := EXIT_SUCCESS;
                        target := Written "";
                        events := probe_events w filename ++ errors |}.
Proof.
  intros Hargv Hver Hhelp Hgo Hcreate Hwrite Hcfg.
  destruct (get_config_path_total (module_path w)) as [path Hpath].
  destruct (extension_of_total filename) as [ext Hext].
  exists path, ext, (match config_file w with
                     | None => [ErrConfigOpen path]
                     | Some _ => []
                     end).
  assert (Hparse : parse_config_file path (config_file w) ext initial_globals
                   = Some (initial_globals,
                           match config_file w with
                           | None => [ErrConfigOpen path]
                           | Some _ => []
                           end))
    by (destruct Hcfg as [->| ->]; reflexivity).
  assert (Hrender : render initial_globals (today w) ext filename = Some "")
    by reflexivity.
  split; [assumption |]. split; [assumption |]. split; [reflexivity |].
  split; [destruct (config_file w); simpl; lia |].
  split; [assumption |]. split; [assumption |].
  unfold main. rewrite Hargv.
  apply String.eqb_neq in Hver, Hhelp. rewrite Hver, Hhelp.
  replace (target_readable w && negb (confirm_action _ _ _)) with false
    by (destruct Hgo as [-> | ->]; [reflexivity | now rewrite andb_false_r]).
  rewrite Hcreate, Hext, Hpath. cbn [negb mbind option_bind].
  rewrite Hparse. cbn [mbind option_bind]. rewrite Hrender, Hwrite.
  reflexivity.
Qed.

Lemma missing_or_empty_config_witness :
  let w := {| argv := ["touch"; "notes.txt"];
              module_path := "C:" +:+ BACKSLASH +:+ "tools" +:+ BACKSLASH +:+ "touch.exe";
              target_readable := false;
              stdin_response := "n"%char;
              stdin_confirmation := "";
              create_ok := true;
              write_ok := true;
              config_file := None;
              today := "2025-03-01" |} in
  let path := "C:" +:+ BACKSLASH +:+ "tools" +:+ BACKSLASH +:+ "./touch.conf" in
  argv w = "touch" :: "notes.txt" :: []
  /\ "notes.txt" <> "--version" /\ "notes.txt" <> "--help"
  /\ (target_readable w = false
      \/ confirm_action (stdin_response w) (stdin_confirmation w) "overwrite" = true)
  /\ create_ok w = true /\ write_ok w = true
  /\ (config_file w = None \/ config_file w = Some [])
  /\ main w = Some {| exit_code := EXIT_SUCCESS;
                      target := Written "";
                      events := [ErrConfigOpen path] |}.
Proof.
  intros w path.
  assert (H1 : argv w = "touch" :: "notes.txt" :: []) by reflexivity.
  assert (H2 : "notes.txt" <> "--version") by discriminate.
  assert (H3 : "notes.txt" <> "--help") by discriminate.
  assert (H4 : target_readable w = false
               \/ confirm_action (stdin_response w) (stdin_confirmation w)
                    "overwrite" = true) by (left; reflexivity).
  assert (H5 : create_ok w = true) by reflexivity.
  assert (H6 : write_ok w = true) by reflexivity.
  assert (H7 : config_file w = None \/ config_file w = Some [])
    by (left; reflexivity).
  repeat (split; [assumption |]).
  destruct (missing_or_empty_config w "touch" "notes.txt" [] H1 H2 H3 H4 H5 H6 H7)
    as (p & ext & errors & Hp & _ & He & _ & _ & _ & Hmain).
  rewrite Hmain, He.
  assert (Hpath : get_config_path (module_path w) = Some path) by reflexivity.
  rewrite Hpath in Hp. injection Hp as <-. reflexivity.
Defined.

(** C8. A [SET] line without an equals sign, and an option line met while no
    type group is open, are each logged as one error and skipped: the parser
    state is left as it was, and the lines after the bad one are processed
    exactly as if it had not been there. *)
Theorem bad_line_is_skipped (ext : string) (pre post : list string)
    (bad t : string) (st st1 : PState) (ev1 : list Event) :
  parse_lines ext pre st = Some (st1, ev1) ->
  trim bad = Some t ->
  (String.prefix "SET " t = true /\ mem "=" t = false)
  \/ (option_line bad t /\ current_type st1.2 = "") ->
  let err := if String.prefix "SET " t
             then ErrInvalidSet t else ErrOptionOutsideType t in
  parse_line ext st1 bad = Some (st1, [err])
  /\ exists st2 ev2,
       parse_lines ext post st1 = Some (st2, ev2)
       /\ parse_lines ext (pre ++ bad :: post) st = Some (st2, ev1 ++ err :: ev2)
       /\ parse_lines ext (pre ++ post) st = Some (st2, ev1 ++ ev2).
Proof.
  intros Hpre Ht Hbad err.
  assert (Hline : parse_line ext st1 bad = Some (st1, [err])).
  { unfold err. destruct Hbad as [[Hp Hm] | [Ho Hc]].
    - rewrite Hp. now apply parse_line_malformed_SET.
    - pose proof Ho as (_ & _ & Hd). unfold is_directive in Hd.
      rewrite !orb_false_iff in Hd. destruct Hd as ((((-> & _) & _) & _) & _).
      destruct st1 as [g1 l1]. now apply parse_line_outside_type. }
  split; [exact Hline |].
  destruct (parse_lines_total ext post st1) as [[st2 ev2] Hpost].
  exists st2, ev2. split; [exact Hpost |]. split.
  - rewrite parse_lines_app, Hpre. cbn [mbind option_bind].
    rewrite (parse_lines_cons _ _ _ _ _ _ Hline), Hpost. reflexivity.
  - rewrite parse_lines_app, Hpre. cbn [mbind option_bind]. rewrite Hpost.
    reflexivity.
Qed.

Lemma bad_line_is_skipped_witness :
  let ext := ".py" in
  let pre := ["SET author = Alice"] in
  let post := ["<type .py>"; "<author>"] in
  let st := (initial_globals, initial_locals) in
  let st1 := ({| variable_map := {["<author>" := "Alice"]};
                 type_options_map := ∅; raw_code := [] |}, initial_locals) in
  parse_lines ext pre st = Some (st1, [])
  /\ trim "  SET license" = Some "SET license"
  /\ ((String.prefix "SET " "SET license" = true /\ mem "=" "SET license" = false)
      \/ (option_line "  SET license" "SET license" /\ current_type st1.2 = ""))
  /\ parse_line ext st1 "  SET license" = Some (st1, [ErrInvalidSet "SET license"])
  /\ exists st2 ev2,
       parse_lines ext post st1 = Some (st2, ev2)
       /\ parse_lines ext (pre ++ "  SET license" :: post) st
          = Some (st2, [] ++ ErrInvalidSet "SET license" :: ev2)
       /\ parse_lines ext (pre ++ post) st = Some (st2, [] ++ ev2).
Proof.
  intros ext pre post st st1.
  assert (H1 : parse_lines ext pre st = Some (st1, [])) by reflexivity.
  assert (H2 : trim "  SET license" = Some "SET license") by reflexivity.
  assert (H3 : (String.prefix "SET " "SET license" = true
                /\ mem "=" "SET license" = false)
               \/ (option_line "  SET license" "SET license"
                   /\ current_type st1.2 = ""))
    by (left; split; reflexivity).
  split; [exact H1 |]. split; [exact H2 |]. split; [exact H3 |].
  exact (bad_line_is_skipped ext pre post "  SET license" "SET license"
           st st1 [] H1 H2 H3).
Defined.

(** C9. The identifiers [<date>] and [<file>] are resolved to [DATE: ] plus
    the current date and [FILE: ] plus the filename before the variable map
    is looked at. A line [SET date = x] or [SET file = x] does store a value
    under the key [<date>] or [<file>], and the two identifiers resolve
    exactly as before. *)
Theorem builtin_placeholders_win (ext : string) (g : Globals) (l : Locals)
    (name x today filename : string) :
  name = "date" \/ name = "file" ->
  representable ("SET " +:+ name +:+ " = " +:+ x) ->
  is_trimmed x = true ->
  convert_option (variable_map g) today "<date>" filename = "DATE: " +:+ today
  /\ convert_option (variable_map g) today "<file>" filename = "FILE: " +:+ filename
  /\ exists g' v,
       parse_line ext (g, l) ("SET " +:+ name +:+ " = " +:+ x) = Some ((g', l), [])
       /\ variable_map g' = <["<" +:+ name +:+ ">" := v]> (variable_map g)
       /\ convert_option (variable_map g') today "<date>" filename
          = convert_option (variable_map g) today "<date>" filename
       /\ convert_option (variable_map g') today "<file>" filename
          = convert_option (variable_map g) today "<file>" filename.
Proof.
  intros Hname Hr Hx. split; [reflexivity |]. split; [reflexivity |].
  destruct (strip_value_quotes_total x) as [v Hv].
  exists {| variable_map := <["<" +:+ name +:+ ">" := v]> (variable_map g);
            type_options_map := type_options_map g;
            raw_code := raw_code g |}, v.
  split; [|split; [reflexivity | split; reflexivity]].
  rewrite parse_line_SET_name_value; auto.
  - rewrite Hv. reflexivity.
  - destruct Hname as [-> | ->]; reflexivity.
  - destruct Hname as [-> | ->]; reflexivity.
Qed.

Lemma builtin_placeholders_win_witness :
  let g := initial_globals in
  let l := initial_locals in
  ("date" = "date" \/ "date" = "file")
  /\ representable ("SET " +:+ "date" +:+ " = " +:+ "tomorrow")
  /\ is_trimmed "tomorrow" = true
  /\ exists g',
       parse_line ".py" (g, l) ("SET " +:+ "date" +:+ " = " +:+ "tomorrow")
       = Some ((g', l), [])
       /\ variable_map g' !! "<date>" = Some "tomorrow"
       /\ convert_option (variable_map g') "2025-03-01" "<date>" "a.py"
          = "DATE: 2025-03-01".
Proof.
  intros g l.
  assert (H1 : "date" = "date" \/ "date" = "file") by (left; reflexivity).
  assert (H2 : representable ("SET " +:+ "date" +:+ " = " +:+ "tomorrow"))
    by reflexivity.
  assert (H3 : is_trimmed "tomorrow" = true) by reflexivity.
  split; [exact H1 |]. split; [exact H2 |]. split; [exact H3 |].
  destruct (builtin_placeholders_win ".py" g l "date" "tomorrow" "2025-03-01"
              "a.py" H1 H2 H3) as (_ & _ & g' & v & Hp & Hvm & Hd & _).
  exists g'. split; [exact Hp |].
  assert (Hp' : parse_line ".py" (g, l) ("SET " +:+ "date" +:+ " = " +:+ "tomorrow")
                = Some (({| variable_map := {["<date>" := "tomorrow"]};
                            type_options_map := ∅; raw_code := [] |}, l), []))
    by reflexivity.
  rewrite Hp' in Hp. injection Hp as <-. split; reflexivity.
Defined.

(** C10. When the value of a [SET] line is the single character of a double
    quote, or a captured raw line is a single quote character (double or
    single), the count [size - 2] of the quote-stripping [substr(1, size - 2)]
    wraps around to [npos], and the call returns the empty string without
    throwing. The [SET] line stores the empty string; for the raw line the
    empty string is what is compared with the backslash-n token, and the
    original one-character line is emitted unchanged. *)
Theorem lone_quote_is_safe (ext : string) (g : Globals) (l : Locals)
    (name msg q : string) :
  representable ("SET " +:+ name +:+ " = " +:+ DQ) ->
  is_trimmed name = true -> mem "=" name = false ->
  q = DQ \/ q = SQ ->
  wrap (size q - 2) = npos
  /\ substr q 1 (wrap (size q - 2)) = Some ""
  /\ strip_value_quotes DQ = Some ""
  /\ parse_line ext (g, l) ("SET " +:+ name +:+ " = " +:+ DQ)
     = Some (({| variable_map := <["<" +:+ name +:+ ">" := ""]> (variable_map g);
                 type_options_map := type_options_map g;
                 raw_code := raw_code g |}, l), [])
  /\ raw_trimmed q = Some ""
  /\ add_raw_line msg q = Some (msg +:+ (q +:+ NL)).
Proof.
  intros Hr Hn Heq Hq.
  split; [destruct Hq as [-> | ->]; reflexivity |].
  split; [destruct Hq as [-> | ->]; reflexivity |].
  split; [reflexivity |].
  split; [rewrite parse_line_SET_name_value; auto |].
  split; destruct Hq as [-> | ->]; reflexivity.
Qed.

Lemma lone_quote_is_safe_witness :
  representable ("SET " +:+ "sep" +:+ " = " +:+ DQ)
  /\ is_trimmed "sep" = true /\ mem "=" "sep" = false
  /\ (SQ = DQ \/ SQ = SQ)
  /\ parse_line ".py" (initial_globals, initial_locals)
       ("SET " +:+ "sep" +:+ " = " +:+ DQ)
     = Some (({| variable_map := {["<sep>" := ""]};
                 type_options_map := ∅; raw_code := [] |}, initial_locals), [])
  /\ raw_trimmed SQ = Some ""
  /\ add_raw_line "# x" SQ = Some ("# x'" +:+ NL).
Proof.
  assert (H1 : representable ("SET " +:+ "sep" +:+ " = " +:+ DQ)) by reflexivity.
  assert (H2 : is_trimmed "sep" = true) by reflexivity.
  assert (H3 : mem "=" "sep" = false) by reflexivity.
  assert (H4 : SQ = DQ \/ SQ = SQ) by (right; reflexivity).
  destruct (lone_quote_is_safe ".py" initial_globals initial_locals "sep" "# x"
              SQ H1 H2 H3 H4) as (_ & _ & _ & Hp & Ht & Ha).
  repeat (split; [assumption |]). exact Ha.
Defined.

(** * Further properties *)

(** ** The command line and the target file *)

Module MainFacts.

(** A run that gets to the target file: the extension, the configuration
    path, the parse and the rendering all exist, and the outcome depends on
    the final [fopen_s] alone. *)
Lemma main_creates (w : World) (prog arg1 : string) (rest : list string) :
  argv w = prog :: arg1 :: rest ->
  arg1 <> "--version" -> arg1 <> "--help" ->
  target_readable w = false
  \/ confirm_action (stdin_response w) (stdin_confirmation w) "overwrite" = true ->
  create_ok w = true ->
  exists ext path g ev msg,
    extension_of arg1 = Some ext
    /\ get_config_path (module_path w) = Some path
    /\ parse_config_file path (config_file w) ext initial_globals = Some (g, ev)
    /\ render g (today w) ext arg1 = Some msg
    /\ main w = Some (if write_ok w
                      then mkOutcome EXIT_SUCCESS (Written (c_str msg))
                             (probe_events w arg1 ++ ev)
                      else mkOutcome EXIT_FAILURE Truncated
                             (probe_events w arg1 ++ ev ++ [ErrOpenForWriting arg1])).
Proof.
  intros Hargv Hver Hhelp Hgo Hcreate.
  destruct (extension_of_total arg1) as [ext Hext].
  destruct (get_config_path_total (module_path w)) as [path Hpath].
  destruct (parse_config_file_total path (config_file w) ext initial_globals)
    as [[g ev] Hparse].
  destruct (render_total g (today w) ext arg1) as [msg Hmsg].
  exists ext, path, g, ev, msg. repeat (split; [assumption |]).
  unfold main. rewrite Hargv.
  apply String.eqb_neq in Hver, Hhelp. rewrite Hver, Hhelp.
  replace (target_readable w && negb (confirm_action _ _ _)) with false
    by (destruct Hgo as [-> | ->]; [reflexivity | now rewrite andb_false_r]).
  rewrite Hcreate, Hext, Hpath. cbn [negb mbind option_bind].
  rewrite Hparse. cbn [mbind option_bind]. rewrite Hmsg.
  cbn [mbind option_bind]. now destruct (write_ok w).
Qed.

Lemma confirm_action_spec (w : World) :
  confirm_action (stdin_response w) (stdin_confirmation w) "overwrite" = true
  <-> confirmed w.
Proof.
  unfold confirm_action, confirmed.
  destruct (Ascii.eqb_spec (stdin_response w) "y") as [Ey|Ey]; simpl.
  - rewrite String.eqb_eq. tauto.
  - destruct (Ascii.eqb_spec (stdin_response w) "Y") as [EY|EY].
    + rewrite String.eqb_eq. tauto.
    + split; [discriminate | tauto].
Qed.

(** [creates_target] in terms of the program's own test. *)
Lemma creates_target_iff (w : World) :
  creates_target w
  <-> exists prog arg1 rest,
        argv w = prog :: arg1 :: rest
        /\ arg1 <> "--version" /\ arg1 <> "--help"
        /\ (target_readable w = false
            \/ confirm_action (stdin_response w) (stdin_confirmation w)
                 "overwrite" = true)
        /\ create_ok w = true.
Proof.
  unfold creates_target. now setoid_rewrite confirm_action_spec.
Qed.

(** Every other run leaves the target alone. *)
Lemma main_leaves (w : World) :
  ~ creates_target w ->
  exists o,
    main w = Some o /\ target o = Untouched
    /\ (exit_code o = EXIT_SUCCESS <->
        exists prog arg1 rest,
          argv w = prog :: arg1 :: rest
          /\ (arg1 = "--version" \/ arg1 = "--help"))
    /\ (exit_code o = EXIT_SUCCESS \/ exit_code o = EXIT_FAILURE).
Proof.
  intros Hno. rewrite creates_target_iff in Hno. unfold main.
  destruct (get_config_path_total (module_path w)) as [cfg Hcfg].
  destruct (argv w) as [|prog [|arg1 rest]] eqn:Hargv.
  - rewrite Hcfg. eexists. split; [reflexivity |]. split; [reflexivity |].
    split; [|now right].
    split; [discriminate |]. intros (? & ? & ? & E & _). discriminate E.
  - rewrite Hcfg. eexists. split; [reflexivity |]. split; [reflexivity |].
    split; [|now right].
    split; [discriminate |]. intros (? & ? & ? & E & _). discriminate E.
  - destruct (String.eqb_spec arg1 "--version") as [Ev|Ev].
    { eexists. split; [reflexivity |]. split; [reflexivity |].
      split; [|now left].
      split; [|reflexivity]. intros _. exists prog, arg1, rest. auto. }
    destruct (String.eqb_spec arg1 "--help") as [Eh|Eh].
    { rewrite Hcfg. eexists. split; [reflexivity |]. split; [reflexivity |].
      split; [|now left].
      split; [|reflexivity]. intros _. exists prog, arg1, rest. auto. }
    assert (Hsw : ~ exists prog0 arg0 rest0,
                    prog :: arg1 :: rest = prog0 :: arg0 :: rest0
                    /\ (arg0 = "--version" \/ arg0 = "--help")).
    { intros (? & ? & ? & E & [H|H]); injection E as <- <- <-; congruence. }
    assert (Hfail : forall tgt evs,
              exists o, Some (mkOutcome EXIT_FAILURE tgt evs) = Some o
                        /\ target o = tgt
                        /\ (exit_code o = EXIT_SUCCESS <->
                            exists prog0 arg0 rest0,
                              prog :: arg1 :: rest = prog0 :: arg0 :: rest0
                              /\ (arg0 = "--version" \/ arg0 = "--help"))
                        /\ (exit_code o = EXIT_SUCCESS \/ exit_code o = EXIT_FAILURE)).
    { intros tgt evs. eexists. split; [reflexivity |]. split; [reflexivity |].
      split; [|now right]. split; [discriminate | intros H; now destruct Hsw]. }
    destruct (target_readable w) eqn:Hread;
      destruct (confirm_action _ _ _) eqn:Hconf; cbn [andb negb];
      try apply Hfail;
      (destruct (create_ok w) eqn:Hc; cbn [negb]; [|apply Hfail]);
      exfalso; apply Hno; exists prog, arg1, rest; repeat split; auto.
Qed.

(** Whether the run gets to the target file can be decided. *)
Lemma creates_target_dec (w : World) : creates_target w \/ ~ creates_target w.
Proof.
  rewrite creates_target_iff.
  destruct (argv w) as [|prog [|arg1 rest]] eqn:Hargv;
    try (right; intros (? & ? & ? & E & _); discriminate E).
  destruct (String.eqb_spec arg1 "--version") as [Ev|Ev];
    [right; intros (? & ? & ? & E & Hv & _); injection E as <- <- <-; congruence |].
  destruct (String.eqb_spec arg1 "--help") as [Eh|Eh];
    [right; intros (? & ? & ? & E & _ & Hh & _); injection E as <- <- <-;
     congruence |].
  destruct (create_ok w) eqn:Hc;
    [|right; intros (? & ? & ? & _ & _ & _ & _ & Hc'); congruence].
  destruct (target_readable w) eqn:Hr.
  - destruct (confirm_action _ _ _) eqn:Hconf.
    + left. exists prog, arg1, rest. auto 10.
    + right. intros (? & ? & ? & _ & _ & _ & [H|H] & _); congruence.
  - left. exists prog, arg1, rest. auto 10.
Qed.

(** What [c_str] keeps of a string. *)
Lemma c_str_String (c : ascii) (s : string) :
  c_str (String c s) = if Ascii.eqb c NUL then "" else String c (c_str s).
Proof. reflexivity. Qed.

Lemma mem_String (c d : ascii) (s : string) :
  mem c (String d s) = if Ascii.eqb c d then true else mem c s.
Proof. reflexivity. Qed.

Lemma c_str_printed (s : string) : printed_of s (c_str s).
Proof.
  unfold printed_of. induction s as [|c s [IHm IHs]]; [split; auto |].
  rewrite c_str_String. destruct (Ascii.eqb_spec c NUL) as [->|Hc].
  - split; [reflexivity |]. right. exists s. reflexivity.
  - split.
    + rewrite mem_String. destruct (Ascii.eqb_spec NUL c); [congruence | exact IHm].
    + destruct IHs as [E|[rest E]].
      * left. now rewrite <- E.
      * right. exists rest. now rewrite sapp_String, <- E.
Qed.

(** A text without NUL is printed whole. *)
Lemma mem_app_mid (c : ascii) (a b : string) : mem c (a +:+ String c b) = true.
Proof.
  induction a as [|d a IH].
  - rewrite sapp_empty, mem_String. now rewrite Ascii.eqb_refl.
  - rewrite sapp_String, mem_String, IH. now destruct (Ascii.eqb c d).
Qed.

Lemma printed_of_whole (text printed : string) :
  printed_of text printed -> mem NUL text = false -> printed = text.
Proof.
  intros [_ [E|[rest E]]] Hno; [now symmetry |].
  rewrite E, mem_app_mid in Hno. discriminate Hno.
Qed.

(** The messages of a parse are the three messages of the parser. *)
Lemma parse_line_no_prompt (ext : string) (st st1 : PState) (line : string)
    (ev : list Event) :
  parse_line ext st line = Some (st1, ev) -> ~ In InfoPrompt ev.
Proof.
  destruct st as [g l]. unfold parse_line. intros H.
  split_parse H; simpl; intuition discriminate.
Qed.

Lemma parse_config_file_no_prompt (path : string) (file : option (list string))
    (ext : string) (g g' : Globals) (ev : list Event) :
  parse_config_file path file ext g = Some (g', ev) -> ~ In InfoPrompt ev.
Proof.
  assert (Hlines : forall lines st st' ev',
            parse_lines ext lines st = Some (st', ev') -> ~ In InfoPrompt ev').
  { induction lines as [|line rest IH]; intros st st' ev' H.
    - injection H as <- <-. auto.
    - destruct (parse_line_total ext st line) as [[st1 ev1] H1].
      rewrite (parse_lines_cons _ _ _ _ _ _ H1) in H.
      destruct (parse_lines ext rest st1) as [[st2 ev2]|] eqn:H2; [|discriminate].
      cbn [mbind option_bind] in H. injection H as <- <-.
      rewrite List.in_app_iff. intros [Hin|Hin].
      + exact (parse_line_no_prompt _ _ _ _ _ H1 Hin).
      + exact (IH _ _ _ H2 Hin). }
  destruct file as [lines|]; simpl.
  - destruct (parse_lines ext lines (g, initial_locals)) as [[st ev0]|] eqn:H;
      [|discriminate]. cbn [mbind option_bind]. intros E. injection E as <- <-.
    exact (Hlines _ _ _ _ H).
  - intros E. injection E as <- <-. simpl. intuition discriminate.
Qed.

End MainFacts.
Import MainFacts.

(** X1. No [std::out_of_range] escapes: whatever the lines of the
    configuration file, the target extension and the state reached so far,
    the parsing loop returns; the renderer returns for every state; and
    [main] returns for every command line and environment, with exit status
    0 or 1. *)
Theorem no_exception_escapes :
  (forall (ext : string) (lines : list string) (st : PState),
     is_Some (parse_lines ext lines st))
  /\ (forall (g : Globals) (today ext filename : string),
        is_Some (render g today ext filename))
  /\ (forall w : World,
        exists o, main w = Some o
                  /\ (exit_code o = EXIT_SUCCESS \/ exit_code o = EXIT_FAILURE)).
Proof.
  split; [exact parse_lines_total |]. split; [exact render_total |].
  intros w. destruct (creates_target_dec w) as [Hc|Hc].
  - apply creates_target_iff in Hc.
    destruct Hc as (prog & arg1 & rest & Hargv & Hv & Hh & Hgo & Hcreate).
    destruct (main_creates w prog arg1 rest Hargv Hv Hh Hgo Hcreate)
      as (ext & path & g & ev & msg & _ & _ & _ & _ & Hmain).
    eexists. split; [exact Hmain |]. destruct (write_ok w); [left | right];
      reflexivity.
  - destruct (main_leaves w Hc) as (o & Hmain & _ & _ & Hcode).
    exists o. split; [exact Hmain | exact Hcode].
Qed.

(** X2. The exit status is 0 exactly when the first argument is [--version]
    or [--help], or when a file name is given, the probing [fopen_s] for
    reading fails or else the user answered [y] or [Y] and then typed
    exactly [overwrite], and both openings of the target for writing
    succeed. A missing or unreadable configuration file, and errors in its
    lines, never change the exit status. *)
Theorem exit_status (w : World) :
  exists o,
    main w = Some o
    /\ (exit_code o = EXIT_SUCCESS <->
        (exists prog arg1 rest,
           argv w = prog :: arg1 :: rest
           /\ (arg1 = "--version" \/ arg1 = "--help"))
        \/ (exists prog arg1 rest,
              argv w = prog :: arg1 :: rest
              /\ arg1 <> "--version" /\ arg1 <> "--help"
              /\ (target_readable w = false
                  \/ ((stdin_response w = "y"%char \/ stdin_response w = "Y"%char)
                      /\ stdin_confirmation w = "overwrite"))
              /\ create_ok w = true /\ write_ok w = true)).
Proof.
  assert (Hshape : (exists prog arg1 rest,
                      argv w = prog :: arg1 :: rest
                      /\ arg1 <> "--version" /\ arg1 <> "--help"
                      /\ (target_readable w = false
                          \/ ((stdin_response w = "y"%char
                               \/ stdin_response w = "Y"%char)
                              /\ stdin_confirmation w = "overwrite"))
                      /\ create_ok w = true /\ write_ok w = true)
                   <-> creates_target w /\ write_ok w = true).
  { unfold creates_target, confirmed. split.
    - intros (p & a & r & H1 & H2 & H3 & H4 & H5 & H6). split; [|exact H6].
      exists p, a, r. auto.
    - intros [(p & a & r & H1 & H2 & H3 & H4 & H5) H6]. exists p, a, r. auto 10. }
  destruct (creates_target_dec w) as [Hc|Hc].
  - pose proof (proj1 (creates_target_iff w) Hc)
      as (prog & arg1 & rest & Hargv & Hv & Hh & Hgo & Hcreate).
    destruct (main_creates w prog arg1 rest Hargv Hv Hh Hgo Hcreate)
      as (ext & path & g & ev & msg & _ & _ & _ & _ & Hmain).
    eexists. split; [exact Hmain |]. rewrite Hshape.
    destruct (write_ok w); simpl; split; auto.
    + discriminate.
    + intros [(? & ? & ? & E & [H|H]) | [_ H]]; try discriminate H;
        rewrite Hargv in E; injection E as <- <- <-; congruence.
  - destruct (main_leaves w Hc) as (o & Hmain & _ & Hexit & _).
    exists o. split; [exact Hmain |]. rewrite Hshape, Hexit. tauto.
Qed.

(** X3. What happens to the target file. It is left untouched unless the run
    gets as far as creating it: a file name that is not a switch, the probe
    for reading failed or the two accepted answers were given, and the
    creating [fopen_s] succeeded. From then on it is either printed into
    with exit status 0, or, when the final opening for writing fails, left
    empty with exit status 1: a target whose overwriting was confirmed has
    lost its contents at that point. What is printed is the text rendered
    from the parsed configuration file: all of it when it holds no NUL
    character, and otherwise the part before its first NUL. *)
Theorem target_effect (w : World) :
  exists o,
    main w = Some o
    /\ (target o = Untouched <-> ~ creates_target w)
    /\ (target o = Truncated <-> creates_target w /\ write_ok w = false)
    /\ ((exists contents, target o = Written contents)
        <-> creates_target w /\ write_ok w = true)
    /\ (target o = Truncated -> exit_code o = EXIT_FAILURE)
    /\ (forall contents, target o = Written contents ->
        exit_code o = EXIT_SUCCESS
        /\ exists prog arg1 rest ext path g ev msg,
             argv w = prog :: arg1 :: rest
             /\ extension_of arg1 = Some ext
             /\ get_config_path (module_path w) = Some path
             /\ parse_config_file path (config_file w) ext initial_globals
                = Some (g, ev)
             /\ render g (today w) ext arg1 = Some msg
             /\ printed_of msg contents
             /\ (mem NUL msg = false -> contents = msg)).
Proof.
  destruct (creates_target_dec w) as [Hc|Hc].
  - pose proof (proj1 (creates_target_iff w) Hc)
      as (prog & arg1 & rest & Hargv & Hv & Hh & Hgo & Hcreate).
    destruct (main_creates w prog arg1 rest Hargv Hv Hh Hgo Hcreate)
      as (ext & path & g & ev & msg & Hext & Hpath & Hparse & Hmsg & Hmain).
    eexists. split; [exact Hmain |].
    destruct (write_ok w); simpl.
    + split; [split; [discriminate | tauto] |].
      split; [split; [discriminate | intros [_ H]; discriminate H] |].
      split; [split; [auto | eauto] |].
      split; [discriminate |].
      intros contents E. injection E as <-. split; [reflexivity |].
      exists prog, arg1, rest, ext, path, g, ev, msg.
      repeat (split; [assumption |]).
      split; [apply c_str_printed | apply printed_of_whole, c_str_printed].
    + split; [split; [discriminate | tauto] |].
      split; [split; auto |].
      split; [split; [intros [? E]; discriminate E | intros [_ H]; discriminate H] |].
      split; [reflexivity | discriminate].
  - destruct (main_leaves w Hc) as (o & Hmain & Htarget & _ & _).
    exists o. split; [exact Hmain |]. rewrite Htarget.
    split; [tauto |].
    split; [split; [discriminate | tauto] |].
    split; [split; [intros [? E]; discriminate E | tauto] |].
    split; discriminate.
Qed.

(** X4. The overwrite prompt is tied to the probing [fopen_s] for reading,
    not to the existence of the file. A target that this probe opens is
    never created anew, emptied or written unless the user answered the
    prompt with [y] or [Y] and then typed exactly [overwrite]. A target
    that the probe does not open, because it is missing or because it
    exists but cannot be read, gets no prompt at all: as soon as the
    creating [fopen_s] succeeds it is created or emptied without any
    confirmation. *)
Theorem no_overwrite_without_confirmation (w : World) :
  (target_readable w = true ->
   exists o,
     main w = Some o
     /\ (target o <> Untouched ->
         (stdin_response w = "y"%char \/ stdin_response w = "Y"%char)
         /\ stdin_confirmation w = "overwrite"))
  /\ (forall prog arg1 rest,
        target_readable w = false ->
        argv w = prog :: arg1 :: rest ->
        arg1 <> "--version" -> arg1 <> "--help" ->
        create_ok w = true ->
        exists o,
          main w = Some o
          /\ target o <> Untouched
          /\ ~ In InfoPrompt (events o)).
Proof.
  split.
  - intros Hread. destruct (creates_target_dec w) as [Hc|Hc].
    + pose proof Hc as (prog & arg1 & rest & Hargv & Hv & Hh & Hgo & Hcreate).
      pose proof (proj1 (creates_target_iff w) Hc)
        as (prog' & arg1' & rest' & Hargv' & Hv' & Hh' & Hgo' & Hcreate').
      destruct (main_creates w prog' arg1' rest' Hargv' Hv' Hh' Hgo' Hcreate')
        as (ext & path & g & ev & msg & _ & _ & _ & _ & Hmain).
      eexists. split; [exact Hmain |]. intros _.
      destruct Hgo as [Hgo|Hgo]; [congruence | exact Hgo].
    + destruct (main_leaves w Hc) as (o & Hmain & Htarget & _ & _).
      exists o. split; [exact Hmain |]. congruence.
  - intros prog arg1 rest Hread Hargv Hv Hh Hcreate.
    destruct (main_creates w prog arg1 rest Hargv Hv Hh (or_introl Hread) Hcreate)
      as (ext & path & g & ev & msg & _ & _ & Hparse & _ & Hmain).
    eexists. split; [exact Hmain |].
    pose proof (parse_config_file_no_prompt _ _ _ _ _ _ Hparse) as Hev.
    unfold probe_events. rewrite Hread.
    destruct (write_ok w); simpl; (split; [discriminate |]); auto.
    rewrite List.in_app_iff. simpl. intuition discriminate.
Qed.

Lemma no_overwrite_without_confirmation_witness :
  let w := {| argv := ["touch"; "main.c"];
              module_path := "touch.exe";
              target_readable := true;
              stdin_response := "y"%char;
              stdin_confirmation := "yes";
              create_ok := true;
              write_ok := true;
              config_file := Some ["<type .c>"; "<file>"];
              today := "2025-03-01" |} in
  let w' := {| argv := ["touch"; "main.c"];
               module_path := "touch.exe";
               target_readable := false;
               stdin_response := "n"%char;
               stdin_confirmation := "";
               create_ok := true;
               write_ok := true;
               config_file := Some ["<type .c>"; "<file>"];
               today := "2025-03-01" |} in
  (target_readable w = true
   /\ main w = Some {| exit_code := EXIT_FAILURE;
                       target := Untouched;
                       events := [ErrFileExists "main.c"; InfoPrompt;
                                  InfoPromptPhrase; InfoAborting] |})
  /\ (target_readable w' = false
      /\ exists o, main w' = Some o
                   /\ target o = Written ("// FILE: main.c" +:+ NL)
                   /\ ~ In InfoPrompt (events o)).
Proof.
  intros w w'. split.
  - assert (Hread : target_readable w = true) by reflexivity.
    split; [exact Hread |].
    destruct (proj1 (no_overwrite_without_confirmation w) Hread)
      as (o & Hmain & _).
    rewrite Hmain. f_equal.
    assert (E : main w = Some {| exit_code := EXIT_FAILURE;
                                 target := Untouched;
                                 events := [ErrFileExists "main.c"; InfoPrompt;
                                            InfoPromptPhrase; InfoAborting] |})
      by (vm_compute; reflexivity).
    rewrite Hmain in E. now injection E.
  - assert (Hread : target_readable w' = false) by reflexivity.
    split; [exact Hread |].
    destruct (proj2 (no_overwrite_without_confirmation w') "touch" "main.c" []
                Hread eq_refl ltac:(discriminate) ltac:(discriminate) eq_refl)
      as (o & Hmain & _ & Hprompt).
    exists o. split; [exact Hmain |]. split; [|exact Hprompt].
    assert (E : main w' = Some {| exit_code := EXIT_SUCCESS;
                                  target := Written ("// FILE: main.c" +:+ NL);
                                  events := [] |})
      by (vm_compute; reflexivity).
    rewrite Hmain in E. injection E as ->. reflexivity.
Defined.

(** ** The extension and the configuration path *)

Module PathFacts.

Lemma last_index_none_of (chars s : string) :
  last_index (fun c => mem c chars) s = None <-> none_of chars s = true.
Proof.
  induction s as [|c s IH]; simpl; [tauto |].
  destruct (last_index _ s) as [i|].
  - split; [discriminate |]. intros H. apply andb_true_iff in H as [_ H].
    apply IH in H. discriminate H.
  - destruct (mem c chars); simpl; [split; discriminate |].
    split; intros _; [now apply IH | reflexivity].
Qed.

(** The last character of the set splits the string in two. *)
Lemma last_index_split (chars s : string) (i : nat) :
  last_index (fun c => mem c chars) s = Some i ->
  exists a c b,
    s = a +:+ String c b /\ String.length a = i
    /\ mem c chars = true /\ none_of chars b = true.
Proof.
  revert i. induction s as [|x s IH]; intros i H; simpl in H; [discriminate |].
  destruct (last_index _ s) as [j|] eqn:E.
  - injection H as <-. destruct (IH j eq_refl) as (a & c & b & -> & Hl & Hc & Hb).
    exists (String x a), c, b. rewrite sapp_String. simpl. auto.
  - destruct (mem x chars) eqn:Hx; [|discriminate]. injection H as <-.
    exists "", x, s. rewrite sapp_empty. repeat split; auto.
    now apply last_index_none_of.
Qed.

Lemma substr_from (a b : string) :
  representable (a +:+ b) -> substr (a +:+ b) (size a) npos = Some b.
Proof.
  intros Hr. unfold representable in Hr. unfold substr. rewrite size_app in *.
  pose proof (size_nonneg a). pose proof (size_nonneg b).
  destruct (Z.ltb_spec (size a + size b) (size a)); [lia |]. f_equal.
  replace (Z.to_nat (size a)) with (String.length a) by (unfold size; lia).
  rewrite sdrop_app. apply stake_all. unfold npos, size in *. lia.
Qed.

Lemma substr_prefix (a b : string) :
  substr (a +:+ b) 0 (size a) = Some a.
Proof.
  unfold substr. rewrite size_app.
  pose proof (size_nonneg a). pose proof (size_nonneg b).
  destruct (Z.ltb_spec (size a + size b) 0); [lia |]. f_equal.
  change (Z.to_nat 0) with O. rewrite sdrop_0.
  replace (Z.to_nat _) with (String.length a) by (unfold size in *; lia).
  apply stake_app.
Qed.

End PathFacts.
Import PathFacts.

(** X5. The target extension is the part of the file name from its last dot
    on, the dot included, and the empty string for a name without a dot:
    the name is a stem followed by the extension, and no dot comes after
    the one that starts the extension. Nothing else is looked at, so a dot
    in a directory part or at the start of the name counts as well. *)
Theorem extension_of_splits (filename : string) :
  representable filename ->
  exists stem ext,
    extension_of filename = Some ext
    /\ filename = stem +:+ ext
    /\ ((ext = "" /\ none_of "." filename = true)
        \/ (exists e, ext = "." +:+ e /\ none_of "." e = true)).
Proof.
  intros Hr. unfold extension_of, find_last_of.
  destruct (last_index _ filename) as [i|] eqn:E; simpl to_size_t.
  - destruct (last_index_split _ _ _ E) as (a & c & b & -> & Hl & Hc & Hb).
    simpl in Hc. destruct (Ascii.eqb_spec c ".") as [->|]; [|discriminate].
    subst i. change (Z.of_nat (String.length a)) with (size a).
    assert (Hne : (size a =? npos) = false).
    { apply Z.eqb_neq. unfold representable in Hr. rewrite size_app in Hr.
      rewrite size_String in Hr. pose proof (size_nonneg b). unfold npos. lia. }
    rewrite Hne. cbn [negb]. rewrite substr_from by exact Hr.
    exists a, (String "." b). split; [reflexivity |]. split; [reflexivity |].
    right. exists b. split; [reflexivity | exact Hb].
  - rewrite Z.eqb_refl. cbn [negb]. exists filename, "".
    split; [reflexivity |]. split; [now rewrite sapp_nil_r |].
    left. split; [reflexivity |]. now apply last_index_none_of.
Qed.

Lemma extension_of_splits_witness :
  representable "src.v2/.gitignore"
  /\ exists stem ext,
       extension_of "src.v2/.gitignore" = Some ext
       /\ "src.v2/.gitignore" = stem +:+ ext
       /\ ((ext = "" /\ none_of "." "src.v2/.gitignore" = true)
           \/ (exists e, ext = "." +:+ e /\ none_of "." e = true)).
Proof.
  assert (Hr : representable "src.v2/.gitignore") by reflexivity.
  split; [exact Hr |]. exact (extension_of_splits "src.v2/.gitignore" Hr).
Defined.

(** X6. The configuration file is looked up next to the executable: its path
    is the module path up to, and without, its last backslash or slash,
    followed by a backslash and [./touch.conf]. For a module path without
    any separator the directory is empty and the path starts with the
    backslash. *)
Theorem config_path_next_to_executable (module_path : string) :
  representable module_path ->
  exists dir,
    get_exe_path module_path = Some dir
    /\ get_config_path module_path = Some (dir +:+ BACKSLASH +:+ "./touch.conf")
    /\ ((dir = "" /\ none_of SEPARATORS module_path = true)
        \/ (exists c exe,
              module_path = dir +:+ String c exe
              /\ mem c SEPARATORS = true
              /\ none_of SEPARATORS exe = true)).
Proof.
  intros Hr.
  assert (Hdir : exists dir,
             get_exe_path module_path = Some dir
             /\ ((dir = "" /\ none_of SEPARATORS module_path = true)
                 \/ (exists c exe,
                       module_path = dir +:+ String c exe
                       /\ mem c SEPARATORS = true
                       /\ none_of SEPARATORS exe = true))).
  { unfold get_exe_path, find_last_of. fold SEPARATORS.
    destruct (last_index _ module_path) as [i|] eqn:E; simpl to_size_t.
    - destruct (last_index_split _ _ _ E) as (a & c & b & -> & Hl & Hc & Hb).
      subst i. change (Z.of_nat (String.length a)) with (size a).
      assert (Hne : (size a =? npos) = false).
      { apply Z.eqb_neq. unfold representable in Hr. rewrite size_app in Hr.
        rewrite size_String in Hr. pose proof (size_nonneg b). unfold npos. lia. }
      rewrite Hne. cbn [negb]. rewrite substr_prefix.
      exists a. split; [reflexivity |]. right. exists c, b. auto.
    - rewrite Z.eqb_refl. cbn [negb]. exists "". split; [reflexivity |].
      left. split; [reflexivity |]. now apply last_index_none_of. }
  destruct Hdir as (dir & Hexe & Hshape).
  exists dir. split; [exact Hexe |]. split; [|exact Hshape].
  unfold get_config_path. rewrite Hexe. reflexivity.
Qed.

Lemma config_path_next_to_executable_witness :
  let module_path := "C:/tools" +:+ BACKSLASH +:+ "bin" +:+ BACKSLASH +:+ "touch.exe" in
  representable module_path
  /\ get_config_path module_path
     = Some ("C:/tools" +:+ BACKSLASH +:+ "bin" +:+ BACKSLASH +:+ "./touch.conf").
Proof.
  intros module_path.
  assert (Hr : representable module_path) by reflexivity.
  split; [exact Hr |].
  destruct (config_path_next_to_executable module_path Hr)
    as (dir & Hexe & Hcfg & _).
  rewrite Hcfg.
  assert (E : get_exe_path module_path
              = Some ("C:/tools" +:+ BACKSLASH +:+ "bin")) by reflexivity.
  rewrite Hexe in E. injection E as ->. reflexivity.
Defined.

(** ** Lines of the configuration file *)

Module PaddingFacts.

Lemma all_blank_not_blank (c : ascii) : mem c WS = negb (not_blank c).
Proof. unfold not_blank. now rewrite negb_involutive. Qed.

Lemma all_blank_String (c : ascii) (s : string) :
  all_blank (String c s) = true -> not_blank c = false /\ all_blank s = true.
Proof.
  change (all_blank (String c s)) with (mem c WS && all_blank s).
  intros H. apply andb_true_iff in H as [Hc Hs]. unfold not_blank.
  now rewrite Hc.
Qed.

Lemma ltrim_all_blank (s : string) : all_blank s = true -> ltrim s = "".
Proof.
  induction s as [|c s IH]; [reflexivity |]. intros H.
  apply all_blank_String in H as [Hc Hs].
  rewrite ltrim_blank by exact Hc. now apply IH.
Qed.

Lemma rtrim_all_blank (s : string) : all_blank s = true -> rtrim s = "".
Proof.
  induction s as [|c s IH]; [reflexivity |]. intros H.
  apply all_blank_String in H as [Hc Hs].
  change (rtrim (String c s))
    with (match rtrim s with
          | EmptyString => if not_blank c then String c EmptyString else EmptyString
          | r => String c r
          end).
  now rewrite (IH Hs), Hc.
Qed.

Lemma ltrim_app_blank (p s : string) :
  all_blank p = true -> ltrim (p +:+ s) = ltrim s.
Proof.
  induction p as [|c p IH]; [reflexivity |]. intros H.
  apply all_blank_String in H as [Hc Hp]. rewrite sapp_String.
  rewrite ltrim_blank by exact Hc. now apply IH.
Qed.

(** Blanks and tabs around a trimmed text are what trimming removes. *)
Lemma trim_padded (p1 core p2 : string) :
  representable (p1 +:+ core +:+ p2) ->
  all_blank p1 = true -> all_blank p2 = true -> is_trimmed core = true ->
  trim (p1 +:+ core +:+ p2) = Some core.
Proof.
  intros Hr H1 H2 Hc. rewrite trim_spec by exact Hr. f_equal.
  rewrite ltrim_app_blank by exact H1.
  destruct (is_trimmed_inv core Hc) as [->|(Hne & Hl & Hrt)].
  - rewrite sapp_empty, ltrim_all_blank by exact H2. reflexivity.
  - rewrite ltrim_id.
    + rewrite rtrim_app_blank by now apply rtrim_all_blank. exact Hrt.
    + destruct core as [|c core]; [congruence |]. rewrite sapp_String.
      simpl in *. destruct (not_blank c) eqn:Ec; [reflexivity |].
      exfalso. pose proof (length_ltrim core) as Hlen. rewrite Hl in Hlen.
      simpl in Hlen. lia.
Qed.

End PaddingFacts.
Import PaddingFacts.

(** X7. A line that is empty or made of blanks and tabs only is skipped: the
    globals, the current type and both mode flags stay as they are, and
    nothing is logged. In particular such a line is never stored as raw
    code, whatever the mode. *)
Theorem blank_line_is_skipped (ext : string) (st : PState) (line : string) :
  representable line -> all_blank line = true ->
  parse_line ext st line = Some (st, []).
Proof.
  intros Hr Hb. destruct st as [g l]. unfold parse_line.
  rewrite trim_spec by exact Hr. rewrite ltrim_all_blank by exact Hb.
  reflexivity.
Qed.

Lemma blank_line_is_skipped_witness :
  let st := ({| variable_map := ∅; type_options_map := {[".c" := []]};
                raw_code := ["int x;"] |},
             {| current_type := ".c"; flag_is_prepend := false;
                flag_is_raw := true |}) in
  let line := String " " (String TAB (String " " EmptyString)) in
  representable line /\ all_blank line = true
  /\ parse_line ".c" st line = Some (st, []).
Proof.
  intros st line.
  assert (Hr : representable line) by reflexivity.
  assert (Hb : all_blank line = true) by reflexivity.
  split; [exact Hr |]. split; [exact Hb |].
  exact (blank_line_is_skipped ".c" st line Hr Hb).
Defined.

(** X8. Blanks and tabs before and after the text of a line are not
    significant: the padded line is processed exactly like the text alone,
    whether it is a directive, an option line or a line of raw code (whose
    indentation is therefore lost). *)
Theorem padding_is_insignificant (ext : string) (st : PState)
    (before core after : string) :
  representable (before +:+ core +:+ after) ->
  all_blank before = true -> all_blank after = true ->
  is_trimmed core = true ->
  parse_line ext st (before +:+ core +:+ after) = parse_line ext st core.
Proof.
  intros Hr H1 H2 Hc. destruct st as [g l]. unfold parse_line.
  rewrite (trim_padded before core after Hr H1 H2 Hc).
  rewrite trim_id; [reflexivity | | exact Hc].
  unfold representable in *. rewrite !size_app in Hr.
  pose proof (size_nonneg before). pose proof (size_nonneg after). lia.
Qed.

Lemma padding_is_insignificant_witness :
  let st := ({| variable_map := ∅; type_options_map := {[".c" := []]};
                raw_code := [] |},
             {| current_type := ".c"; flag_is_prepend := false;
                flag_is_raw := true |}) in
  let before := String TAB (String " " EmptyString) in
  representable (before +:+ "return 0;" +:+ " ")
  /\ all_blank before = true /\ all_blank " " = true
  /\ is_trimmed "return 0;" = true
  /\ parse_line ".c" st (before +:+ "return 0;" +:+ " ")
     = Some (({| variable_map := ∅; type_options_map := {[".c" := []]};
                 raw_code := ["return 0;"] |}, st.2), []).
Proof.
  intros st before.
  assert (Hr : representable (before +:+ "return 0;" +:+ " ")) by reflexivity.
  assert (H1 : all_blank before = true) by reflexivity.
  assert (H2 : all_blank " " = true) by reflexivity.
  assert (H3 : is_trimmed "return 0;" = true) by reflexivity.
  repeat (split; [assumption |]).
  rewrite (padding_is_insignificant ".c" st before "return 0;" " " Hr H1 H2 H3).
  vm_compute. reflexivity.
Defined.

Module StoreFacts.

Lemma group_created (g : Globals) (X k : string) :
  default []
    (match type_options_map g !! X with
     | Some _ => type_options_map g
     | None => <[X := []]> (type_options_map g)
     end !! k)
  = group g k.
Proof.
  unfold group. destruct (type_options_map g !! X) eqn:E; [reflexivity |].
  destruct (decide (X = k)) as [->|Hne].
  - now rewrite lookup_insert_eq, E.
  - now rewrite lookup_insert_ne.
Qed.

(** A directive stores neither an option nor a raw line. *)
Lemma parse_line_directive (ext : string) (g g' : Globals) (l l' : Locals)
    (line t : string) (ev : list Event) :
  trim line = Some t -> is_directive t = true ->
  parse_line ext (g, l) line = Some ((g', l'), ev) ->
  raw_code g' = raw_code g /\ forall k, group g' k = group g k.
Proof.
  intros Ht Hd H. unfold parse_line in H. rewrite Ht in H.
  cbn [mbind option_bind] in H. rewrite !find_eq_0 in H.
  unfold is_directive in Hd.
  split_parse H; cbn [raw_code type_options_map]; try (split; reflexivity);
    try (split; [reflexivity | intros k; apply group_created]);
    repeat match goal with
           | E : String.prefix _ t = false |- _ => rewrite E in Hd; clear E
           end; discriminate Hd.
Qed.

(** Inside the raw block of the target's type group, a line other than a
    [<type ...>] directive keeps the block open and stores no option. *)
Lemma parse_line_in_raw_block (ext : string) (g g' : Globals) (l l' : Locals)
    (line t : string) (ev : list Event) :
  trim line = Some t -> String.prefix "<type " t = false ->
  flag_is_raw l = true -> current_type l = ext -> ext <> "" ->
  parse_line ext (g, l) line = Some ((g', l'), ev) ->
  current_type l' = ext /\ flag_is_raw l' = true
  /\ (forall k, group g' k = group g k)
  /\ grows (raw_code g) (raw_code g').
Proof.
  intros Ht Hp Hraw Hct Hne H. unfold parse_line in H. rewrite Ht in H.
  cbn [mbind option_bind] in H. rewrite !find_eq_0, Hp in H.
  assert (Hsame : forall r : list string, grows r r)
    by (intros r; exists []; now rewrite List.app_nil_r).
  assert (Hcond : flag_is_raw l && String.eqb (current_type l) ext = true)
    by (rewrite Hraw, Hct, String.eqb_refl; reflexivity).
  rewrite Hcond in H.
  split_parse H; cbn [raw_code type_options_map current_type flag_is_raw];
    repeat split; auto; try (now eexists).
Qed.

End StoreFacts.
Import StoreFacts.

(** X9. A line recognised as a directive ([SET ...], [<type ...], [<prepend>],
    [<append>], [<raw>], each by its prefix) is never stored: it adds no
    option to any type group and no line to the raw code, also while raw
    mode is active for the target's type group. Raw code therefore cannot
    contain a line that starts with one of these five prefixes. *)
Theorem directive_is_never_stored (ext : string) (g : Globals) (l : Locals)
    (line t : string) :
  trim line = Some t -> is_directive t = true ->
  exists g' l' ev,
    parse_line ext (g, l) line = Some ((g', l'), ev)
    /\ raw_code g' = raw_code g
    /\ forall k, group g' k = group g k.
Proof.
  intros Ht Hd.
  destruct (parse_line_total ext (g, l) line) as [[[g' l'] ev] H].
  exists g', l', ev. split; [exact H |].
  exact (parse_line_directive ext g g' l l' line t ev Ht Hd H).
Qed.

Lemma directive_is_never_stored_witness :
  let g := {| variable_map := ∅; type_options_map := {[".sh" := []]};
              raw_code := ["#!/bin/sh"] |} in
  let l := {| current_type := ".sh"; flag_is_prepend := false;
              flag_is_raw := true |} in
  trim "SET -e = 1" = Some "SET -e = 1"
  /\ is_directive "SET -e = 1" = true
  /\ parse_line ".sh" (g, l) "SET -e = 1"
     = Some (({| variable_map := {["<-e>" := "1"]};
                 type_options_map := {[".sh" := []]};
                 raw_code := ["#!/bin/sh"] |}, l), []).
Proof.
  intros g l.
  assert (Ht : trim "SET -e = 1" = Some "SET -e = 1") by reflexivity.
  assert (Hd : is_directive "SET -e = 1" = true) by reflexivity.
  split; [exact Ht |]. split; [exact Hd |].
  destruct (directive_is_never_stored ".sh" g l "SET -e = 1" "SET -e = 1" Ht Hd)
    as (g' & l' & ev & H & _).
  rewrite H. symmetry. rewrite <- H. vm_compute. reflexivity.
Defined.

(** X10. Raw mode cannot be left inside a type block. Once [<raw>] was read
    in the block of the target extension, every following line up to the
    next [<type ...>] directive leaves the current type and raw mode as they
    are, [<prepend>] and [<append>] included, and no option is stored in any
    type group: the option lines all go to the raw code, which only
    grows. *)
Theorem raw_mode_lasts_until_next_type (ext : string) (lines : list string)
    (g : Globals) (l : Locals) :
  no_type_directive lines ->
  flag_is_raw l = true -> current_type l = ext -> ext <> "" ->
  exists g' l' ev,
    parse_lines ext lines (g, l) = Some ((g', l'), ev)
    /\ current_type l' = ext /\ flag_is_raw l' = true
    /\ (forall k, group g' k = group g k)
    /\ grows (raw_code g) (raw_code g').
Proof.
  intros Hlines. revert g l.
  induction Hlines as [|line rest (t & Ht & Hp) _ IH]; intros g l Hraw Hct Hne.
  - exists g, l, []. repeat split; auto. exists []. now rewrite List.app_nil_r.
  - destruct (parse_line_total ext (g, l) line) as [[[g1 l1] ev1] H1].
    destruct (parse_line_in_raw_block _ _ _ _ _ _ _ _ Ht Hp Hraw Hct Hne H1)
      as (Hct1 & Hraw1 & Hg1 & [a1 Hr1]).
    destruct (IH g1 l1 Hraw1 Hct1 Hne) as (g' & l' & ev & H & Hct' & Hraw' & Hg & [a Hr]).
    exists g', l', (ev1 ++ ev). split; [|repeat split; auto].
    + rewrite (parse_lines_cons _ _ _ _ _ _ H1), H. reflexivity.
    + intros k. now rewrite Hg, Hg1.
    + exists (a1 ++ a). now rewrite Hr, Hr1, List.app_assoc.
Qed.

Lemma raw_mode_lasts_until_next_type_witness :
  let lines := ["import sys"; "<append>"; "print(sys.argv)"] in
  let g := {| variable_map := ∅; type_options_map := {[".py" := []]};
              raw_code := [] |} in
  let l := {| current_type := ".py"; flag_is_prepend := false;
              flag_is_raw := true |} in
  no_type_directive lines
  /\ flag_is_raw l = true /\ current_type l = ".py" /\ ".py" <> ""
  /\ parse_lines ".py" lines (g, l)
     = Some (({| variable_map := ∅; type_options_map := {[".py" := []]};
                 raw_code := ["import sys"; "print(sys.argv)"] |}, l), []).
Proof.
  intros lines g l.
  assert (H1 : no_type_directive lines)
    by (repeat constructor; eexists; split; reflexivity).
  assert (H2 : flag_is_raw l = true) by reflexivity.
  assert (H3 : current_type l = ".py") by reflexivity.
  assert (H4 : ".py" <> "") by discriminate.
  repeat (split; [assumption |]).
  destruct (raw_mode_lasts_until_next_type ".py" lines g l H1 H2 H3 H4)
    as (g' & l' & ev & H & _).
  rewrite H. symmetry. rewrite <- H. vm_compute. reflexivity.
Defined.

(** ** Invariants of a whole parse *)

Module InvariantFacts.

Lemma grows_refl {A : Type} (l : list A) : grows l l.
Proof. exists []. now rewrite List.app_nil_r. Qed.

Lemma grows_trans {A : Type} (l1 l2 l3 : list A) :
  grows l1 l2 -> grows l2 l3 -> grows l1 l3.
Proof.
  intros [a ->] [b ->]. exists (a ++ b). now rewrite List.app_assoc.
Qed.

Lemma parse_line_grows (ext : string) (g g' : Globals) (l l' : Locals)
    (line : string) (ev : list Event) :
  parse_line ext (g, l) line = Some ((g', l'), ev) ->
  (forall k, grows (group g k) (group g' k))
  /\ grows (raw_code g) (raw_code g')
  /\ (forall k, is_Some (variable_map g !! k) -> is_Some (variable_map g' !! k))
  /\ (forall k, is_Some (type_options_map g !! k) ->
                is_Some (type_options_map g' !! k)).
Proof.
  intros H. split; [intros k; exact (parse_line_groups _ _ _ _ _ _ _ k H) |].
  apply parse_line_effect in H.
  inversion H; subst; cbn [raw_code variable_map type_options_map];
    repeat split; auto using grows_refl.
  - intros k Hk. destruct (decide (key = k)) as [->|Hne].
    + rewrite lookup_insert_eq. eauto.
    + now rewrite lookup_insert_ne.
  - intros k Hk. destruct (type_options_map g !! X) eqn:E; [exact Hk |].
    destruct (decide (X = k)) as [->|Hne].
    + rewrite lookup_insert_eq. eauto.
    + now rewrite lookup_insert_ne.
  - now eexists.
  - intros k Hk. destruct (decide (current_type l' = k)) as [->|Hne].
    + rewrite lookup_insert_eq. eauto.
    + now rewrite lookup_insert_ne.
Qed.

(** The keys written by the parser are names between angle brackets. *)
Lemma parse_line_key_shape (ext : string) (g g' : Globals) (l l' : Locals)
    (line : string) (ev : list Event) (k : string) :
  parse_line ext (g, l) line = Some ((g', l'), ev) ->
  is_Some (variable_map g' !! k) ->
  is_Some (variable_map g !! k) \/ exists n, k = "<" +:+ n +:+ ">".
Proof.
  intros H Hk. unfold parse_line in H.
  split_parse H; cbn [variable_map] in Hk; auto.
  match type of Hk with
  | is_Some (<[?key := _]> _ !! _) => destruct (decide (key = k)) as [<-|Hne]
  end.
  - right. eauto.
  - left. now rewrite lookup_insert_ne in Hk.
Qed.

(** What a line may add to the stored options and raw lines. *)
Lemma parse_line_storable (ext : string) (g g' : Globals) (l l' : Locals)
    (line : string) (ev : list Event) :
  parse_line ext (g, l) line = Some ((g', l'), ev) ->
  Forall storable (raw_code g) ->
  (forall k, Forall (fun o => storable (identifier o)) (group g k)) ->
  group g "" = [] ->
  Forall storable (raw_code g')
  /\ (forall k, Forall (fun o => storable (identifier o)) (group g' k))
  /\ group g' "" = [].
Proof.
  intros H Hraw Hgrp Hempty.
  destruct (trim_total line) as [t Ht].
  destruct (empty t) eqn:He.
  { unfold parse_line in H. rewrite Ht in H. cbn [mbind option_bind] in H.
    rewrite He in H. injection H as <- <- <-. auto. }
  apply empty_false in He.
  destruct (is_directive t) eqn:Hd.
  { destruct (parse_line_directive _ _ _ _ _ _ _ _ Ht Hd H) as [Er Eg].
    rewrite Er. split; [exact Hraw |]. split.
    - intros k. rewrite Eg. apply Hgrp.
    - now rewrite Eg. }
  assert (Ho : option_line line t) by (repeat split; auto).
  assert (Hst : storable t) by (split; auto).
  rewrite (parse_line_option_line ext g l line t Ho) in H.
  destruct (empty (current_type l)) eqn:Hc; [injection H as <- <- <-; auto |].
  apply empty_false in Hc.
  destruct (flag_is_raw l && String.eqb (current_type l) ext).
  - injection H as <- <- <-. cbn [raw_code]. split; [|split; auto].
    apply Forall_app. split; [exact Hraw | now constructor].
  - injection H as <- <- <-. cbn [raw_code]. split; [exact Hraw |].
    unfold group in *. cbn [type_options_map]. split.
    + intros k. destruct (decide (current_type l = k)) as [<-|Hne].
      * rewrite lookup_insert_eq. simpl. apply Forall_app. split.
        -- apply Hgrp.
        -- now constructor.
      * rewrite lookup_insert_ne by exact Hne. apply Hgrp.
    + rewrite lookup_insert_ne by exact Hc. exact Hempty.
Qed.

End InvariantFacts.
Import InvariantFacts.

(** X11. Parsing only ever adds. Whatever the lines, afterwards every type
    group starts with the options it had before, in the same order; the raw
    code starts with the lines it had before; and every variable and every
    type group that existed still exists. No line removes or reorders what
    an earlier line stored. *)
Theorem parsing_only_adds (ext : string) (lines : list string) (g : Globals)
    (l : Locals) :
  exists g' l' ev,
    parse_lines ext lines (g, l) = Some ((g', l'), ev)
    /\ (forall k, grows (group g k) (group g' k))
    /\ grows (raw_code g) (raw_code g')
    /\ (forall k, is_Some (variable_map g !! k) -> is_Some (variable_map g' !! k))
    /\ (forall k, is_Some (type_options_map g !! k) ->
                  is_Some (type_options_map g' !! k)).
Proof.
  revert g l. induction lines as [|line rest IH]; intros g l.
  - exists g, l, []. repeat split; auto using grows_refl.
  - destruct (parse_line_total ext (g, l) line) as [[[g1 l1] ev1] H1].
    destruct (parse_line_grows _ _ _ _ _ _ _ H1) as (Ha & Hb & Hc & Hd).
    destruct (IH g1 l1) as (g' & l' & ev & H & Ha' & Hb' & Hc' & Hd').
    exists g', l', (ev1 ++ ev).
    split; [rewrite (parse_lines_cons _ _ _ _ _ _ H1), H; reflexivity |].
    repeat split; eauto using grows_trans.
Qed.

(** X12. Every key of the variable map built from a configuration file is a
    name between angle brackets. Consequently an option line that is not of
    the form [<...>] is never replaced: it is rendered as it stands. *)
Theorem variable_keys_are_bracketed (path : string) (file : option (list string))
    (ext : string) :
  exists g ev,
    parse_config_file path file ext initial_globals = Some (g, ev)
    /\ (forall k, is_Some (variable_map g !! k) -> exists n, k = "<" +:+ n +:+ ">")
    /\ (forall today filename opt,
          (forall n, opt <> "<" +:+ n +:+ ">") ->
          convert_option (variable_map g) today opt filename = opt).
Proof.
  assert (Hinv : forall lines g l g' l' ev,
            parse_lines ext lines (g, l) = Some ((g', l'), ev) ->
            (forall k, is_Some (variable_map g !! k) ->
                       exists n, k = "<" +:+ n +:+ ">") ->
            forall k, is_Some (variable_map g' !! k) ->
                      exists n, k = "<" +:+ n +:+ ">").
  { induction lines as [|line rest IH]; intros g l g' l' ev H Hg k Hk.
    - injection H as <- <- <-. auto.
    - destruct (parse_line_total ext (g, l) line) as [[[g1 l1] ev1] H1].
      rewrite (parse_lines_cons _ _ _ _ _ _ H1) in H.
      destruct (parse_lines ext rest (g1, l1)) as [[[g2 l2] ev2]|] eqn:H2;
        [|discriminate]. cbn [mbind option_bind] in H. injection H as <- <- <-.
      apply (IH _ _ _ _ _ H2); [|exact Hk].
      intros k1 Hk1.
      destruct (parse_line_key_shape _ _ _ _ _ _ _ k1 H1 Hk1); auto. }
  assert (Hkeys : exists g ev,
            parse_config_file path file ext initial_globals = Some (g, ev)
            /\ forall k, is_Some (variable_map g !! k) ->
                         exists n, k = "<" +:+ n +:+ ">").
  { destruct file as [lines|].
    - destruct (parse_lines_total ext lines (initial_globals, initial_locals))
        as [[[g l] ev] H].
      exists g, ev. split; [unfold parse_config_file; now rewrite H |].
      apply (Hinv _ _ _ _ _ _ H). intros k [v Hk]. discriminate Hk.
    - eexists _, _. split; [reflexivity |]. intros k [v Hk]. discriminate Hk. }
  destruct Hkeys as (g & ev & Hp & Hk). exists g, ev.
  split; [exact Hp |]. split; [exact Hk |].
  intros today filename opt Hopt. unfold convert_option.
  destruct (String.eqb_spec opt "<date>") as [E|_];
    [exfalso; apply (Hopt "date"); exact E |].
  destruct (String.eqb_spec opt "<file>") as [E|_];
    [exfalso; apply (Hopt "file"); exact E |].
  destruct (variable_map g !! opt) as [v|] eqn:E; [|reflexivity].
  destruct (Hk opt (ex_intro _ v E)) as [n Hn]. now destruct (Hopt n).
Qed.

(** X13. Whatever the configuration file, every stored option identifier and
    every stored raw line is non-empty and is not a directive, and the type
    group named by the empty string, which [<type >] creates, never holds an
    option. *)
Theorem stored_lines_are_option_lines (path : string)
    (file : option (list string)) (ext : string) :
  exists g ev,
    parse_config_file path file ext initial_globals = Some (g, ev)
    /\ Forall storable (raw_code g)
    /\ (forall k, Forall (fun o => storable (identifier o)) (group g k))
    /\ group g "" = [].
Proof.
  assert (Hinv : forall lines g l g' l' ev,
            parse_lines ext lines (g, l) = Some ((g', l'), ev) ->
            Forall storable (raw_code g) ->
            (forall k, Forall (fun o => storable (identifier o)) (group g k)) ->
            group g "" = [] ->
            Forall storable (raw_code g')
            /\ (forall k, Forall (fun o => storable (identifier o)) (group g' k))
            /\ group g' "" = []).
  { induction lines as [|line rest IH]; intros g l g' l' ev H Hr Hg He.
    - injection H as <- <- <-. auto.
    - destruct (parse_line_total ext (g, l) line) as [[[g1 l1] ev1] H1].
      rewrite (parse_lines_cons _ _ _ _ _ _ H1) in H.
      destruct (parse_lines ext rest (g1, l1)) as [[[g2 l2] ev2]|] eqn:H2;
        [|discriminate]. cbn [mbind option_bind] in H. injection H as <- <- <-.
      destruct (parse_line_storable _ _ _ _ _ _ _ H1 Hr Hg He) as (Hr1 & Hg1 & He1).
      exact (IH _ _ _ _ _ H2 Hr1 Hg1 He1). }
  assert (H0 : Forall storable (raw_code initial_globals)
               /\ (forall k, Forall (fun o => storable (identifier o))
                               (group initial_globals k))
               /\ group initial_globals "" = []).
  { split; [constructor |]. split; [|reflexivity].
    intros k. unfold group. simpl. rewrite lookup_empty. constructor. }
  destruct H0 as (Hr0 & Hg0 & He0).
  destruct file as [lines|].
  - destruct (parse_lines_total ext lines (initial_globals, initial_locals))
      as [[[g l] ev] H].
    exists g, ev. split; [unfold parse_config_file; now rewrite H |].
    exact (Hinv _ _ _ _ _ _ H Hr0 Hg0 He0).
  - eexists _, _. split; [reflexivity |]. auto.
Qed.

(** ** More on single directives *)

(** X14. The last [SET] of a name wins. After a line [SET name = value],
    whatever came before it (earlier values of the same name included) and
    as long as no later line writes the variable, the variable map holds
    for [<name>] the value of that line, with its surrounding double quotes
    removed. *)
Theorem last_SET_wins (ext name value : string) (pre post : list string)
    (st : PState) :
  let set_line := "SET " +:+ name +:+ " = " +:+ value in
  let key := "<" +:+ name +:+ ">" in
  representable set_line ->
  is_trimmed name = true -> mem "=" name = false ->
  is_trimmed value = true ->
  Forall (leaves_variable ext key) post ->
  exists v st' ev,
    strip_value_quotes value = Some v
    /\ parse_lines ext (pre ++ set_line :: post) st = Some (st', ev)
    /\ variable_map st'.1 !! key = Some v.
Proof.
  intros set_line key Hr Hn Heq Hv Hpost.
  destruct (strip_value_quotes_total value) as [v Hsv].
  destruct (parse_lines_total ext pre st) as [[[g0 l0] ev0] Hpre].
  assert (Hset : parse_line ext (g0, l0) set_line
                 = Some (({| variable_map := <[key := v]> (variable_map g0);
                             type_options_map := type_options_map g0;
                             raw_code := raw_code g0 |}, l0), [])).
  { unfold set_line. rewrite parse_line_SET_name_value by assumption.
    now rewrite Hsv. }
  destruct (parse_lines_total ext post
              ({| variable_map := <[key := v]> (variable_map g0);
                  type_options_map := type_options_map g0;
                  raw_code := raw_code g0 |}, l0)) as [[st' ev'] Hrest].
  exists v, st', (ev0 ++ [] ++ ev'). split; [exact Hsv |]. split.
  - rewrite parse_lines_app, Hpre. cbn [mbind option_bind].
    rewrite (parse_lines_cons _ _ _ _ _ _ Hset), Hrest. reflexivity.
  - rewrite (parse_lines_variable _ _ _ _ _ _ Hpost Hrest). simpl.
    apply lookup_insert_eq.
Qed.

Lemma last_SET_wins_witness :
  let pre := ["SET license = MIT"; "<type .all>"; "<license>"] in
  let post := ["<type .c>"; "<file>"] in
  let set_line := "SET " +:+ "license" +:+ " = " +:+ "GPL-3.0" in
  representable set_line
  /\ Forall (leaves_variable ".c" ("<" +:+ "license" +:+ ">")) post
  /\ exists st' ev,
       parse_lines ".c" (pre ++ set_line :: post) (initial_globals, initial_locals)
       = Some (st', ev)
       /\ variable_map st'.1 !! ("<" +:+ "license" +:+ ">") = Some "GPL-3.0".
Proof.
  intros pre post set_line.
  assert (Hr : representable set_line) by reflexivity.
  assert (Hpost : Forall (leaves_variable ".c" ("<" +:+ "license" +:+ ">")) post).
  { repeat constructor.
    - apply (not_SET_leaves_variable _ _ _ "<type .c>"); reflexivity.
    - apply (not_SET_leaves_variable _ _ _ "<file>"); reflexivity. }
  split; [exact Hr |]. split; [exact Hpost |].
  destruct (last_SET_wins ".c" "license" "GPL-3.0" pre post
              (initial_globals, initial_locals) Hr eq_refl eq_refl eq_refl Hpost)
    as (v & st' & ev & Hv & Hp & Hk).
  exists st', ev. split; [exact Hp |].
  assert (E : strip_value_quotes "GPL-3.0" = Some "GPL-3.0") by reflexivity.
  rewrite Hv in E. injection E as ->. exact Hk.
Defined.

(** X15. The closing bracket of a [<type X>] directive is not checked: the
    type name is whatever stands between the prefix [<type ] and the last
    character of the line, and that last character is dropped whatever it
    is. A line [<type .py] therefore opens the group [.p]. *)
Theorem type_name_drops_last_character (ext : string) (g : Globals) (l : Locals)
    (X : string) (c : ascii) :
  representable ("<type " +:+ X +:+ String c "") ->
  not_blank c = true ->
  exists g',
    parse_line ext (g, l) ("<type " +:+ X +:+ String c "")
    = Some ((g', {| current_type := X; flag_is_prepend := false;
                    flag_is_raw := false |}), [])
    /\ is_Some (type_options_map g' !! X)
    /\ group g' X = group g X.
Proof.
  intros Hr Hc. eexists. split; [|split].
  - unfold parse_line.
    assert (Ht : trim ("<type " +:+ X +:+ String c "")
                 = Some ("<type " +:+ X +:+ String c "")).
    { apply trim_id; [exact Hr |]. unfold is_trimmed.
      replace (back ("<type " +:+ X +:+ String c "")) with (Some c)
        by (now rewrite <- sapp_assoc, back_app_char).
      simpl front. now rewrite Hc. }
    rewrite Ht. cbn [mbind option_bind]. rewrite !find_eq_0, prefix_app.
    replace (empty ("<type " +:+ X +:+ String c "")) with false by reflexivity.
    replace (String.prefix "SET " ("<type " +:+ X +:+ String c "")) with false
      by reflexivity.
    replace (size ("<type " +:+ X +:+ String c "") - 7) with (size X)
      by (rewrite !size_app; change (size "<type ") with 6;
          change (size (String c "")) with 1; lia).
    change 6 with (size "<type ") at 1.
    rewrite substr_mid by exact Hr. reflexivity.
  - cbn [type_options_map].
    destruct (type_options_map g !! X) eqn:E; [rewrite E; eauto |].
    rewrite lookup_insert_eq. eauto.
  - unfold group at 1. cbn [type_options_map]. apply group_created.
Qed.

Lemma type_name_drops_last_character_witness :
  representable ("<type " +:+ ".p" +:+ String "y" "")
  /\ not_blank "y" = true
  /\ exists g',
       parse_line ".py" (initial_globals, initial_locals) "<type .py"
       = Some ((g', {| current_type := ".p"; flag_is_prepend := false;
                       flag_is_raw := false |}), []).
Proof.
  assert (Hr : representable ("<type " +:+ ".p" +:+ String "y" "")) by reflexivity.
  assert (Hc : not_blank "y" = true) by reflexivity.
  split; [exact Hr |]. split; [exact Hc |].
  destruct (type_name_drops_last_character ".py" initial_globals initial_locals
              ".p" "y" Hr Hc) as (g' & H & _).
  exists g'. exact H.
Defined.

(** X16. The three mode directives are recognised by their prefix alone:
    whatever follows [<prepend>], [<append>] or [<raw>] on the same line is
    ignored. The line sets the mode, stores nothing and logs nothing. *)
Theorem mode_directive_ignores_rest_of_line (ext : string) (g : Globals)
    (l : Locals) (line rest : string) :
  (trim line = Some ("<prepend>" +:+ rest) ->
   parse_line ext (g, l) line
   = Some ((g, {| current_type := current_type l; flag_is_prepend := true;
                  flag_is_raw := flag_is_raw l |}), []))
  /\ (trim line = Some ("<append>" +:+ rest) ->
      parse_line ext (g, l) line
      = Some ((g, {| current_type := current_type l; flag_is_prepend := false;
                     flag_is_raw := flag_is_raw l |}), []))
  /\ (trim line = Some ("<raw>" +:+ rest) ->
      parse_line ext (g, l) line
      = Some ((g, {| current_type := current_type l;
                     flag_is_prepend := flag_is_prepend l;
                     flag_is_raw := true |}), [])).
Proof.
  repeat split; intros Ht; unfold parse_line; rewrite Ht;
    cbn [mbind option_bind]; rewrite !find_eq_0, ?prefix_app; reflexivity.
Qed.

Lemma mode_directive_ignores_rest_of_line_witness :
  trim "<raw> #include <stdio.h>" = Some ("<raw>" +:+ " #include <stdio.h>")
  /\ parse_line ".c"
       ({| variable_map := ∅; type_options_map := {[".c" := []]};
           raw_code := [] |},
        {| current_type := ".c"; flag_is_prepend := false; flag_is_raw := false |})
       "<raw> #include <stdio.h>"
     = Some (({| variable_map := ∅; type_options_map := {[".c" := []]};
                 raw_code := [] |},
              {| current_type := ".c"; flag_is_prepend := false;
                 flag_is_raw := true |}), []).
Proof.
  assert (Ht : trim "<raw> #include <stdio.h>"
               = Some ("<raw>" +:+ " #include <stdio.h>")) by reflexivity.
  split; [exact Ht |].
  exact (proj2 (proj2 (mode_directive_ignores_rest_of_line ".c" _ _ _ _)) Ht).
Defined.

(** X17. A [SET] line is split at its first equals sign, and the blanks
    around that sign are optional: [SET name=value] and [SET name = value]
    store the same value under [<name>]. Equals signs inside the value
    belong to the value. *)
Theorem SET_splits_at_first_equals (ext : string) (g : Globals) (l : Locals)
    (name value : string) :
  representable ("SET " +:+ name +:+ " = " +:+ value) ->
  is_trimmed name = true -> mem "=" name = false ->
  is_trimmed value = true ->
  exists v,
    strip_value_quotes value = Some v
    /\ parse_line ext (g, l) ("SET " +:+ name +:+ "=" +:+ value)
       = Some (({| variable_map := <["<" +:+ name +:+ ">" := v]> (variable_map g);
                   type_options_map := type_options_map g;
                   raw_code := raw_code g |}, l), [])
    /\ parse_line ext (g, l) ("SET " +:+ name +:+ " = " +:+ value)
       = parse_line ext (g, l) ("SET " +:+ name +:+ "=" +:+ value).
Proof.
  intros Hr Hn Heq Hv.
  destruct (strip_value_quotes_total value) as [v Hsv]. exists v.
  assert (Hr' : representable ("SET " +:+ name +:+ "=" +:+ value)).
  { unfold representable in *. rewrite !size_app in *.
    change (size " = ") with 3 in Hr. change (size "=") with 1. lia. }
  assert (Hname : rtrim (ltrim name) = name).
  { destruct (is_trimmed_inv _ Hn) as [->|(_ & Hl & Hrt)]; [reflexivity |].
    now rewrite Hl, Hrt. }
  assert (Hvalue : rtrim (ltrim value) = value).
  { destruct (is_trimmed_inv _ Hv) as [->|(_ & Hl & Hrt)]; [reflexivity |].
    now rewrite Hl, Hrt. }
  assert (Ht : trim ("SET " +:+ name +:+ "=" +:+ value)
               = Some ("SET " +:+ name +:+ "=" +:+ value)).
  { apply trim_id; [exact Hr' |]. unfold is_trimmed. simpl front.
    destruct value as [|c value].
    - replace (back ("SET " +:+ name +:+ "=" +:+ "")) with (Some "="%char);
        [reflexivity |].
      rewrite sapp_nil_r, <- sapp_assoc. symmetry. apply back_app_char.
    - destruct (is_trimmed_back _ Hv ltac:(discriminate)) as (b & Eb & Hb).
      replace (back ("SET " +:+ name +:+ "=" +:+ String c value)) with (Some b);
        [now rewrite Hb |].
      rewrite <- Eb, <- !sapp_assoc. symmetry. now apply back_app. }
  assert (Hshort : parse_line ext (g, l) ("SET " +:+ name +:+ "=" +:+ value)
                   = Some (({| variable_map :=
                                 <["<" +:+ name +:+ ">" := v]> (variable_map g);
                               type_options_map := type_options_map g;
                               raw_code := raw_code g |}, l), [])).
  { rewrite (parse_line_SET ext g l _ name value Hr' Ht Heq).
    now rewrite Hvalue, Hname, Hsv. }
  split; [exact Hsv |]. split; [exact Hshort |].
  rewrite Hshort, parse_line_SET_name_value by assumption. now rewrite Hsv.
Qed.

Lemma SET_splits_at_first_equals_witness :
  representable ("SET " +:+ "flags" +:+ " = " +:+ "-O2 -DMODE=fast")
  /\ is_trimmed "flags" = true /\ mem "=" "flags" = false
  /\ is_trimmed "-O2 -DMODE=fast" = true
  /\ parse_line ".c" (initial_globals, initial_locals) "SET flags=-O2 -DMODE=fast"
     = Some (({| variable_map := {["<flags>" := "-O2 -DMODE=fast"]};
                 type_options_map := ∅; raw_code := [] |}, initial_locals), []).
Proof.
  assert (Hr : representable ("SET " +:+ "flags" +:+ " = " +:+ "-O2 -DMODE=fast"))
    by reflexivity.
  repeat (split; [reflexivity |]).
  destruct (SET_splits_at_first_equals ".c" initial_globals initial_locals
              "flags" "-O2 -DMODE=fast" Hr eq_refl eq_refl eq_refl)
    as (v & Hv & Hp & _).
  assert (E : strip_value_quotes "-O2 -DMODE=fast" = Some "-O2 -DMODE=fast")
    by reflexivity.
  rewrite Hv in E. injection E as ->. exact Hp.
Defined.

(** ** The merged options and the rendered text *)

Module MergedFacts.

Lemma filter_partition_perm {A : Type} (f : A -> bool) (l : list A) :
  Permutation (List.filter f l ++ List.filter (fun x => negb (f x)) l) l.
Proof.
  induction l as [|x l IH]; simpl; [constructor |].
  destruct (f x); simpl.
  - now constructor.
  - rewrite <- Permutation_middle. now constructor.
Qed.

Lemma remove_last_token (s : string) :
  remove_last s = BACKSLASH_N -> exists c, s = BACKSLASH_N +:+ String c "".
Proof.
  destruct s as [|a [|b [|c [|d s]]]]; simpl; try discriminate.
  intros H. injection H as -> ->. now exists c.
Qed.

End MergedFacts.
Import MergedFacts.

(** X18. The merged option sequence holds the identifiers of the options of
    the target extension's type group and of the [.all] group, and nothing
    else: an option stored for another extension is never rendered. *)
Theorem merged_options_sources (g : Globals) (ext x : string) :
  In x (all_options g ext)
  <-> exists o, identifier o = x /\ (In o (group g ext) \/ In o (group g ".all")).
Proof.
  rewrite all_options_spec. fold (group g ext) (group g ".all").
  rewrite !List.in_app_iff, !List.in_map_iff. split.
  - intros [(o & E & Ho) | [(o & E & Ho) | (o & E & Ho)]]; exists o;
      try apply List.filter_In in Ho; tauto.
  - intros (o & E & [Ho|Ho]).
    + destruct (is_prepend o) eqn:Ep.
      * left. exists o. split; [exact E |]. apply List.filter_In. auto.
      * right. right. exists o. split; [exact E |]. apply List.filter_In.
        split; [exact Ho |]. now rewrite Ep.
    + right. left. eauto.
Qed.

(** X19. For a target whose extension is [.all] itself, the [.all] group is
    used twice, as the target's own group and as the default group: the
    merged sequence is a rearrangement of the group's identifiers taken
    twice, so every option is rendered two times. *)
Theorem all_extension_doubles_options (g : Globals) :
  let ids := map identifier (group g ".all") in
  Permutation (all_options g ".all") (ids ++ ids)
  /\ List.length (all_options g ".all") = (2 * List.length ids)%nat.
Proof.
  intros ids.
  assert (Hp : Permutation (all_options g ".all") (ids ++ ids)).
  { rewrite all_options_spec. fold (group g ".all"). fold ids.
    rewrite (Permutation_app_comm ids).
    rewrite List.app_assoc, <- List.map_app.
    apply Permutation_app_tail. unfold ids. apply Permutation_map.
    rewrite Permutation_app_comm.
    etransitivity; [|apply (filter_partition_perm is_prepend)].
    apply Permutation_app_comm. }
  split; [exact Hp |].
  rewrite (Permutation_length Hp), List.length_app. lia.
Qed.

(** X20. The comment prefix table has no duplicate extension, so every one
    of its entries is effective: each listed extension gets the prefix
    listed with it. The lookup is exact; any extension that is not listed
    literally (another case, no extension at all) gets the two slashes and
    a blank. *)
Theorem comment_prefix_lookup :
  NoDup (map fst comment_str_table)
  /\ (forall k v, In (k, v) comment_str_table -> comment_str k = v)
  /\ (forall ext, ~ In ext (map fst comment_str_table) -> comment_str ext = "// ").
Proof.
  assert (Hnd : NoDup (comment_str_table.*1))
    by (apply (bool_decide_unpack _); vm_compute; exact I).
  split; [exact Hnd |]. split.
  - intros k v Hin. unfold comment_str, comment_str_map.
    apply list_elem_of_In in Hin.
    apply (elem_of_list_to_map (M := gmap string)) in Hin; [|exact Hnd].
    now rewrite Hin.
  - intros ext Hno. unfold comment_str, comment_str_map.
    rewrite (not_elem_of_list_to_map_1 (M := gmap string)); [reflexivity |].
    now rewrite list_elem_of_In.
Qed.

(** X21. Which raw lines are rendered as a blank line: exactly the
    backslash-n token, and the token preceded by a double or single quote
    and followed by one more character, whatever that character is (the
    closing quote is not checked), besides the empty line, which the parser
    never stores. Every other raw line is written out unchanged, quotes
    included. *)
Theorem raw_lines_rendered_blank (msg line : string) :
  representable line ->
  (add_raw_line msg line = Some (msg +:+ NL)
   <-> line = ""
       \/ line = BACKSLASH_N
       \/ exists q c, (q = DQUOTE \/ q = SQUOTE)
                      /\ line = String q (BACKSLASH_N +:+ String c ""))
  /\ (add_raw_line msg line <> Some (msg +:+ NL) ->
      add_raw_line msg line = Some (msg +:+ (line +:+ NL))).
Proof.
  intros Hr. rewrite add_raw_line_spec by exact Hr.
  assert (Hinj : forall x y, Some (msg +:+ x) = Some (msg +:+ y) <-> x = y).
  { intros x y. split; [|now intros ->]. intros H. injection H as H.
    now apply (inj (String.app msg)) in H. }
  rewrite Hinj. unfold Spec.raw_line, Spec.stripped_copy.
  destruct (String.eqb_spec
              (if Spec.leading_quote line then without_ends line else line)
              BACKSLASH_N) as [E|E].
  - split; [|intros H; now destruct H].
    split; [intros _ | reflexivity]. right.
    destruct line as [|q s]; [discriminate E |]. simpl Spec.leading_quote in E.
    destruct (Ascii.eqb_spec q DQUOTE) as [->|Hd]; simpl in E.
    + right. apply remove_last_token in E as [c ->]. exists DQUOTE, c. auto.
    + destruct (Ascii.eqb_spec q SQUOTE) as [->|Hs]; simpl in E.
      * right. apply remove_last_token in E as [c ->]. exists SQUOTE, c. auto.
      * now left.
  - split; [|reflexivity]. split.
    + intros H. left. apply (f_equal String.length) in H.
      rewrite slength_app in H. destruct line; [reflexivity | simpl in H; lia].
    + intros [->|[->|(q & c & Hq & ->)]]; [reflexivity | now destruct E |].
      exfalso. apply E. destruct Hq as [-> | ->]; reflexivity.
Qed.

Lemma raw_lines_rendered_blank_witness :
  let line := String DQUOTE (BACKSLASH_N +:+ String "x" "") in
  representable line
  /\ add_raw_line "// a.c" line = Some ("// a.c" +:+ NL).
Proof.
  intros line.
  assert (Hr : representable line) by reflexivity.
  split; [exact Hr |].
  apply (proj1 (raw_lines_rendered_blank "// a.c" line Hr)).
  right. right. exists DQUOTE, "x"%char. split; [now left | reflexivity].
Defined.

(** ** Runs of option lines *)

(** X22. Insertion order and mode are kept. A run of option lines read while
    a type group with a non-empty name is open, and not captured as raw
    code, is appended to that group in file order, each line trimmed and
    tagged with the prepend flag in force; nothing else changes: the other
    groups, the variables, the raw code, the current type and the flags
    stay as they are, and nothing is logged. *)
Theorem option_lines_are_stored_in_order (ext : string) (lines ts : list string)
    (g : Globals) (l : Locals) :
  Forall2 option_line lines ts ->
  current_type l <> "" ->
  flag_is_raw l = false \/ current_type l <> ext ->
  exists g',
    parse_lines ext lines (g, l) = Some ((g', l), [])
    /\ group g' (current_type l)
       = group g (current_type l)
         ++ map (fun t => {| identifier := t; is_prepend := flag_is_prepend l |}) ts
    /\ (forall k, k <> current_type l -> group g' k = group g k)
    /\ variable_map g' = variable_map g
    /\ raw_code g' = raw_code g.
Proof.
  intros Hlines Hct Hmode. revert g.
  induction Hlines as [|line t lines ts Ho _ IH]; intros g.
  - exists g. simpl. rewrite List.app_nil_r. auto.
  - set (g1 := {| variable_map := variable_map g;
                  type_options_map :=
                    <[current_type l :=
                        default [] (type_options_map g !! current_type l)
                        ++ [{| identifier := t; is_prepend := flag_is_prepend l |}]]>
                      (type_options_map g);
                  raw_code := raw_code g |}).
    assert (H1 : parse_line ext (g, l) line = Some ((g1, l), [])).
    { rewrite (parse_line_option_line ext g l line t Ho).
      apply empty_false in Hct. rewrite Hct.
      replace (flag_is_raw l && String.eqb (current_type l) ext) with false;
        [reflexivity |].
      symmetry. apply andb_false_iff.
      destruct Hmode as [Hm|Hm]; [now left | right; now apply String.eqb_neq]. }
    destruct (IH g1) as (g' & H & Hgrp & Hother & Hvm & Hraw).
    exists g'. split; [rewrite (parse_lines_cons _ _ _ _ _ _ H1), H; reflexivity |].
    split; [|split; [|split]].
    + rewrite Hgrp. unfold group, g1. cbn [type_options_map].
      rewrite lookup_insert_eq. simpl. now rewrite <- List.app_assoc.
    + intros k Hk. rewrite (Hother k Hk). unfold group, g1.
      cbn [type_options_map]. now rewrite lookup_insert_ne by congruence.
    + now rewrite Hvm.
    + now rewrite Hraw.
Qed.

Lemma option_lines_are_stored_in_order_witness :
  let g := {| variable_map := ∅;
              type_options_map :=
                {[".py" := [{| identifier := "<date>"; is_prepend := false |}]]};
              raw_code := [] |} in
  let l := {| current_type := ".py"; flag_is_prepend := true;
              flag_is_raw := false |} in
  Forall2 option_line ["  <file>"; "coding: utf-8  "] ["<file>"; "coding: utf-8"]
  /\ current_type l <> ""
  /\ (flag_is_raw l = false \/ current_type l <> ".py")
  /\ exists g',
       parse_lines ".py" ["  <file>"; "coding: utf-8  "] (g, l) = Some ((g', l), [])
       /\ group g' ".py"
          = [{| identifier := "<date>"; is_prepend := false |};
             {| identifier := "<file>"; is_prepend := true |};
             {| identifier := "coding: utf-8"; is_prepend := true |}].
Proof.
  intros g l.
  assert (H1 : Forall2 option_line ["  <file>"; "coding: utf-8  "]
                 ["<file>"; "coding: utf-8"])
    by (repeat constructor; discriminate).
  assert (H2 : current_type l <> "") by discriminate.
  assert (H3 : flag_is_raw l = false \/ current_type l <> ".py")
    by (left; reflexivity).
  repeat (split; [assumption |]).
  destruct (option_lines_are_stored_in_order ".py" _ _ g l H1 H2 H3)
    as (g' & H & Hgrp & _).
  exists g'. split; [exact H | exact Hgrp].
Defined.

(** X23. Raw code keeps the file order. A run of option lines read in raw
    mode while the open type group is the target extension is appended to
    the raw code in file order, each line trimmed; the type groups, the
    variables, the current type and the flags stay as they are, and nothing
    is logged. *)
Theorem raw_lines_are_captured_in_order (ext : string) (lines ts : list string)
    (g : Globals) (l : Locals) :
  Forall2 option_line lines ts ->
  current_type l <> "" -> flag_is_raw l = true -> current_type l = ext ->
  parse_lines ext lines (g, l)
  = Some (({| variable_map := variable_map g;
              type_options_map := type_options_map g;
              raw_code := raw_code g ++ ts |}, l), []).
Proof.
  intros Hlines Hct Hraw Heq. revert g.
  induction Hlines as [|line t lines ts Ho _ IH]; intros g.
  - simpl. rewrite List.app_nil_r. now destruct g.
  - assert (H1 : parse_line ext (g, l) line
                 = Some (({| variable_map := variable_map g;
                             type_options_map := type_options_map g;
                             raw_code := raw_code g ++ [t] |}, l), [])).
    { rewrite (parse_line_option_line ext g l line t Ho).
      apply empty_false in Hct. rewrite Hct, Hraw, Heq, String.eqb_refl.
      reflexivity. }
    rewrite (parse_lines_cons _ _ _ _ _ _ H1), IH. cbn [mbind option_bind].
    cbn [variable_map type_options_map raw_code].
    now rewrite <- List.app_assoc.
Qed.

Lemma raw_lines_are_captured_in_order_witness :
  let g := {| variable_map := ∅; type_options_map := {[".c" := []]};
              raw_code := ["#include <stdio.h>"] |} in
  let l := {| current_type := ".c"; flag_is_prepend := false;
              flag_is_raw := true |} in
  Forall2 option_line ["int main(void)"; "  { return 0; }"]
                      ["int main(void)"; "{ return 0; }"]
  /\ current_type l <> "" /\ flag_is_raw l = true /\ current_type l = ".c"
  /\ parse_lines ".c" ["int main(void)"; "  { return 0; }"] (g, l)
     = Some (({| variable_map := ∅; type_options_map := {[".c" := []]};
                 raw_code := ["#include <stdio.h>"; "int main(void)";
                              "{ return 0; }"] |}, l), []).
Proof.
  intros g l.
  assert (H1 : Forall2 option_line ["int main(void)"; "  { return 0; }"]
                 ["int main(void)"; "{ return 0; }"])
    by (repeat constructor; discriminate).
  assert (H2 : current_type l <> "") by discriminate.
  repeat (split; [assumption || reflexivity |]).
  exact (raw_lines_are_captured_in_order ".c" _ _ g l H1 H2 eq_refl eq_refl).
Defined.

(** X24. The parser logs at most one message per line, and only of two
    kinds: a [SET] line without an equals sign and an option line outside
    of a type block. It never logs anything else, whatever the file. *)
Theorem parser_messages (ext : string) (lines : list string) (st : PState) :
  exists st' ev,
    parse_lines ext lines st = Some (st', ev)
    /\ (List.length ev <= List.length lines)%nat
    /\ Forall (fun e => exists t, e = ErrInvalidSet t \/ e = ErrOptionOutsideType t)
         ev.
Proof.
  assert (Hline : forall st line st1 ev1,
            parse_line ext st line = Some (st1, ev1) ->
            (List.length ev1 <= 1)%nat
            /\ Forall (fun e => exists t, e = ErrInvalidSet t
                                          \/ e = ErrOptionOutsideType t) ev1).
  { intros [g l] line st1 ev1 H. unfold parse_line in H.
    split_parse H; simpl; split; try lia; repeat constructor; eauto. }
  revert st. induction lines as [|line rest IH]; intros st.
  - exists st, []. repeat split; auto.
  - destruct (parse_line_total ext st line) as [[st1 ev1] H1].
    destruct (Hline _ _ _ _ H1) as [Hlen Hkind].
    destruct (IH st1) as (st' & ev & H & Hlen' & Hkind').
    exists st', (ev1 ++ ev).
    split; [rewrite (parse_lines_cons _ _ _ _ _ _ H1), H; reflexivity |].
    split; [rewrite List.length_app; simpl; lia | now apply Forall_app].
Qed.
